(** * BACPAC synthetic-data notebook: the column utilities

    A shallow embedding of the three helper functions defined in
    [HEAL-notebooks/combined_tutorials/BACPAC_Synthetic_Data_Analysis.ipynb]
    ([age_group], [find_participant], [find_timepoint]) together with the
    Python built-ins they call, and the properties the specification states
    about them; then the metadata selection of the same notebook and, from
    [BRH-notebooks/combined_demos/ACTT1_accessclinical.ipynb], the
    clinical-status list, [gdcGetURL_new] and the gene-id cut of
    [merge_rna], with properties read off the code. *)

From Stdlib Require Import ZArith Strings.String Strings.Ascii.
From Stdlib Require Import Numbers.DecimalString Numbers.DecimalPos Numbers.DecimalZ.
From stdpp Require Import gmap strings list fin_maps.

Open Scope string_scope.
Open Scope list_scope.
Open Scope nat_scope.

(** ** Python values and exceptions *)

(** The cells of the notebook's columns: integers, strings, and [nan], the
    float that pandas writes into a cell with no value. *)
Inductive value :=
  | VInt (n : Z)
  | VStr (s : string)
  | VNaN.

#[global] Instance value_eq_dec : EqDecision value.
Proof. solve_decision. Defined.

(** The exceptions the built-ins used by the notebook can raise. *)
Inductive exn :=
  | ValueError
  | TypeError
  | AttributeError
  | KeyError.

(** The outcome of evaluating an expression: a value or a raised exception. *)
Inductive res (A : Type) :=
  | Ok (a : A)
  | Raise (e : exn).
Arguments Ok {A} a.
Arguments Raise {A} e.

#[global] Instance res_ret : MRet res := fun A a => Ok a.
#[global] Instance res_bind : MBind res := fun A B f m =>
  match m with
  | Ok a => f a
  | Raise e => Raise e
  end.

(** A data frame, column by column: [mydf["name"]] is a lookup. *)
Abbreviation frame := (gmap string (list value)).

Definition getitem (mydf : frame) (name : string) : res (list value) :=
  match mydf !! name with
  | Some col => Ok col
  | None => Raise KeyError
  end.

(** ** Built-ins on strings *)

(** [c in chars] for a one-character [c]. *)
Fixpoint char_in (c : ascii) (chars : string) : bool :=
  match chars with
  | EmptyString => false
  | String d chars' => if Ascii.eqb c d then true else char_in c chars'
  end.

(** The right-to-left scan of [str.rstrip(chars)]: starting from index [j]
    (one past the last kept character), step left while the character
    before [j] belongs to [chars]. *)
Fixpoint rstrip_end (s chars : string) (j : nat) : nat :=
  match j with
  | O => O
  | S j' =>
      match String.get j' s with
      | Some c => if char_in c chars then rstrip_end s chars j' else j
      | None => j
      end
  end.

(** [s.rstrip(chars)]: the slice [s[0:j]] where the scan stops. *)
Definition rstrip (s chars : string) : string :=
  substring 0 (rstrip_end s chars (String.length s)) s.

(** [s.endswith(suffix)]: the last [len(suffix)] characters of [s] are
    compared with [suffix]; a suffix longer than [s] never matches. *)
Definition endswith (s suffix : string) : bool :=
  let n := String.length s in
  let m := String.length suffix in
  if (m <=? n)%nat then String.eqb (substring (n - m) m s) suffix else false.

(** Every character of [t] belongs to [chars]. *)
Fixpoint all_in (t chars : string) : bool :=
  match t with
  | EmptyString => true
  | String c t' => char_in c chars && all_in t' chars
  end.

(** ** Built-ins on values *)

(** [str(v)]. *)
Definition py_str (v : value) : string :=
  match v with
  | VInt n => NilZero.string_of_int (Z.to_int n)
  | VStr s => s
  | VNaN => "nan"
  end.

(** [a < b]: integers by value, strings by code point, any comparison with
    [nan] is false, a string against a number is a [TypeError]. *)
Definition py_lt (a b : value) : res bool :=
  match a, b with
  | VInt x, VInt y => Ok (x <? y)%Z
  | VStr s, VStr t => Ok (String.ltb s t)
  | VInt _, VNaN | VNaN, VInt _ | VNaN, VNaN => Ok false
  | _, _ => Raise TypeError
  end.

(** [a <= b]. *)
Definition py_le (a b : value) : res bool :=
  match a, b with
  | VInt x, VInt y => Ok (x <=? y)%Z
  | VStr s, VStr t => Ok (String.leb s t)
  | VInt _, VNaN | VNaN, VInt _ | VNaN, VNaN => Ok false
  | _, _ => Raise TypeError
  end.

(** The loop of [min]: keep the current minimum, replace it by an item that
    compares strictly smaller. *)
Fixpoint min_from (cur : value) (l : list value) : res value :=
  match l with
  | [] => Ok cur
  | item :: l' => b ← py_lt item cur; min_from (if b : bool then item else cur) l'
  end.

(** [min(l)]; the empty sequence is a [ValueError]. *)
Definition py_min (l : list value) : res value :=
  match l with
  | [] => Raise ValueError
  | item :: l' => min_from item l'
  end.

(** [o.rstrip(chars)] and [o.endswith(suffix)] as method calls: only a
    string has these attributes. *)
Definition meth_rstrip (o : value) (chars : string) : res value :=
  match o with
  | VStr s => Ok (VStr (rstrip s chars))
  | _ => Raise AttributeError
  end.

Definition meth_endswith (o : value) (suffix : string) : res bool :=
  match o with
  | VStr s => Ok (endswith s suffix)
  | _ => Raise AttributeError
  end.

(** ** The notebook's functions, on values *)

(** [for i in l: acc = body i acc], stopping at the first exception. *)
Fixpoint for_in {S : Type} (l : list value) (body : value → S → res S) (acc : S) : res S :=
  match l with
  | [] => Ok acc
  | i :: l' => acc' ← body i acc; for_in l' body acc'
  end.

(** <<
    def age_group(agelist):
        min_age = min(agelist)
        grouplabel1 = str(min_age) + "-55 yr"
        grouplabel2= ">55 yr"
        grouplist = []
        for i in agelist:
            if i <=55:
                grouplist.append(grouplabel1)
            else:
                grouplist.append(grouplabel2)
        return grouplist
    >> *)
Definition age_group (agelist : list value) : res (list value) :=
  min_age ← py_min agelist;
  let grouplabel1 := py_str min_age +:+ "-55 yr" in
  let grouplabel2 := ">55 yr" in
  let grouplist := [] in
  for_in agelist (fun i grouplist =>
    b ← py_le i (VInt 55);
    if b : bool
    then Ok (grouplist ++ [VStr grouplabel1])
    else Ok (grouplist ++ [VStr grouplabel2])) grouplist.

(** <<
    def find_participant(mydf, endstr):
        participant_id = []
        for i in list(mydf["submitter_id"]):
            i_participant = i.rstrip(endstr)
            participant_id.append(i_participant)
        return participant_id
    >> *)
Definition find_participant (mydf : frame) (endstr : string) : res (list value) :=
  let participant_id := [] in
  col ← getitem mydf "submitter_id";
  for_in col (fun i participant_id =>
    i_participant ← meth_rstrip i endstr;
    Ok (participant_id ++ [i_participant])) participant_id.

(** <<
    def find_timepoint(mydf):
        timepoint = []
        for i in list(mydf["visits.submitter_id"]):
            if i.endswith("Week 0"):
                timepoint.append("Week 0")
            else:
                timepoint.append("Week 12")
        return timepoint
    >> *)
Definition find_timepoint (mydf : frame) : res (list value) :=
  let timepoint := [] in
  col ← getitem mydf "visits.submitter_id";
  for_in col (fun i timepoint =>
    b ← meth_endswith i "Week 0";
    if b : bool
    then Ok (timepoint ++ [VStr "Week 0"])
    else Ok (timepoint ++ [VStr "Week 12"])) timepoint.

(** ** The functions over a store of mutable objects *)

(** Python lists and data frames are mutable objects reached through
    references. The store maps a reference to the object it denotes. *)
Inductive obj :=
  | OList (items : list value)
  | OFrame (columns : gmap string (list value)).

Abbreviation loc := positive.
Abbreviation heap := (gmap positive obj).

(** A computation reads and updates the store and ends with a value or an
    exception; [None] means the fuel given to a loop ran out. *)
Definition M (A : Type) : Type := heap → option (res A * heap).

#[global] Instance M_ret : MRet M := fun A a h => Some (Ok a, h).
#[global] Instance M_bind : MBind M := fun A B f m h =>
  match m h with
  | Some (Ok a, h') => f a h'
  | Some (Raise e, h') => Some (Raise e, h')
  | None => None
  end.

(** An expression without effect on the store. *)
Definition lift {A : Type} (r : res A) : M A := fun h => Some (r, h).

(** [[]] and [list(col)]: a new list object. *)
Definition new_list (items : list value) : M loc := fun h =>
  let l := fresh (dom h) in Some (Ok l, <[l := OList items]> h).

(** The items of the list at [l], as seen by a built-in that walks it. *)
Definition list_items (l : loc) : M (list value) := fun h =>
  match h !! l with
  | Some (OList items) => Some (Ok items, h)
  | _ => Some (Raise TypeError, h)
  end.

(** One step of a list iterator standing at index [i]: the item there, or
    nothing when the list (as it is now) has no such index. *)
Definition list_next (l : loc) (i : nat) : M (option value) := fun h =>
  match h !! l with
  | Some (OList items) => Some (Ok (items !! i), h)
  | _ => Some (Raise TypeError, h)
  end.

(** [l.append(v)]. *)
Definition list_append (l : loc) (v : value) : M unit := fun h =>
  match h !! l with
  | Some (OList items) => Some (Ok (), <[l := OList (items ++ [v])]> h)
  | _ => Some (Raise AttributeError, h)
  end.

(** [df[name]] on the frame at [df]. *)
Definition frame_getitem (df : loc) (name : string) : M (list value) := fun h =>
  match h !! df with
  | Some (OFrame columns) => Some (getitem columns name, h)
  | _ => Some (Raise TypeError, h)
  end.

(** [for i in l: body i], on the list object as it is at each step. *)
Fixpoint for_list (fuel : nat) (l : loc) (i : nat) (body : value → M unit) : M unit :=
  match fuel with
  | O => fun _ => None
  | S fuel' =>
      item ← list_next l i;
      match item with
      | Some v => body v ≫= λ _, for_list fuel' l (S i) body
      | None => mret ()
      end
  end.

(** The three functions again, statement by statement, on references:
    [agelist] and [mydf] denote objects of the store, the list returned is
    a new object, and [append] updates it in place. [fuel] bounds the number
    of iterator steps of the loop. *)
Definition age_group_st (fuel : nat) (agelist : loc) : M loc :=
  items ← list_items agelist;
  min_age ← lift (py_min items);
  let grouplabel1 := py_str min_age +:+ "-55 yr" in
  let grouplabel2 := ">55 yr" in
  grouplist ← new_list [];
  for_list fuel agelist 0 (fun i =>
    b ← lift (py_le i (VInt 55));
    if b : bool
    then list_append grouplist (VStr grouplabel1)
    else list_append grouplist (VStr grouplabel2)) ≫= λ _,
  mret grouplist.

Definition find_participant_st (fuel : nat) (mydf : loc) (endstr : string) : M loc :=
  participant_id ← new_list [];
  col ← frame_getitem mydf "submitter_id";
  keys ← new_list col;
  for_list fuel keys 0 (fun i =>
    i_participant ← lift (meth_rstrip i endstr);
    list_append participant_id i_participant) ≫= λ _,
  mret participant_id.

Definition find_timepoint_st (fuel : nat) (mydf : loc) : M loc :=
  timepoint ← new_list [];
  col ← frame_getitem mydf "visits.submitter_id";
  visits ← new_list col;
  for_list fuel visits 0 (fun i =>
    b ← lift (meth_endswith i "Week 0");
    if b : bool
    then list_append timepoint (VStr "Week 0")
    else list_append timepoint (VStr "Week 12")) ≫= λ _,
  mret timepoint.

(** Two finished runs agree: the same exception, or two lists with the
    same items. *)
Definition same_outcome (run1 run2 : res loc * heap) : Prop :=
  match run1, run2 with
  | (Ok g1, h1), (Ok g2, h2) =>
      ∃ out, h1 !! g1 = Some (OList out) ∧ h2 !! g2 = Some (OList out)
  | (Raise e1, _), (Raise e2, _) => e1 = e2
  | _, _ => False
  end.

(** Every object of [h] is still there, unchanged, in [h']. *)
Definition preserved (h h' : heap) : Prop :=
  ∀ l o, h !! l = Some o → h' !! l = Some o.

(** A loop body that appends to the list at [g] what [pure] appends to its
    accumulator. *)
Definition appends_like (g : loc) (body : value → M unit)
    (pure : value → list value → res (list value)) : Prop :=
  ∀ v acc h, h !! g = Some (OList acc) →
    body v h = Some (match pure v acc with
                     | Ok acc' => (Ok (), <[g := OList acc']> h)
                     | Raise e => (Raise e, h)
                     end).

(** A finished run delivers the result [r] of the value-level function:
    the same exception, or a list object with the same items. *)
Definition computes (run : res loc * heap) (r : res (list value)) : Prop :=
  match r, run with
  | Ok out, (Ok g, h') => h' !! g = Some (OList out)
  | Raise e, (Raise e', _) => e' = e
  | _, _ => False
  end.

(** ** The library calls the notebook hands its tables to *)

(** Modelled from the spec: [pd.crosstab] is a routine of the pandas
    library and its code is not in the repository. The specification
    describes its result as a table "counting co-occurrences of two ...
    categorical columns" from which rows with a missing value are left out.
    [index] and [columns] are the two columns, read row by row; each label
    is listed once (the order of the labels, which pandas sorts, plays no
    part in the counts). *)
Definition observed (index columns : list value) : list (value * value) :=
  filter (λ p, p.1 ≠ VNaN ∧ p.2 ≠ VNaN) (zip index columns).

Definition count_rows (r c : value) (rows : list (value * value)) : nat :=
  length (filter (λ p, p.1 = r ∧ p.2 = c) rows).

Record crosstab_table := {
  row_labels : list value;
  col_labels : list value;
  cells : list (list nat)
}.

Definition crosstab (index columns : list value) : crosstab_table :=
  let rows := observed index columns in
  let rl := remove_dups (rows.*1) in
  let cl := remove_dups (rows.*2) in
  {| row_labels := rl;
     col_labels := cl;
     cells := (λ r, (λ c, count_rows r c rows) <$> cl) <$> rl |}.

(** The margins of a table: the sum of each row, the sum of each column. *)
Definition row_margins (t : crosstab_table) : list nat :=
  sum_list <$> cells t.

Definition col_margins (t : crosstab_table) : list nat :=
  (λ j, sum_list ((λ row, default 0 (row !! j)) <$> cells t))
    <$> seq 0 (length (col_labels t)).

(** A row of a table, by column name; a column the row lacks reads as
    missing. *)
Abbreviation row := (gmap string value).

Definition cell (r : row) (name : string) : value := default VNaN (r !! name).

(** Modelled from the spec: [DataFrame.merge(..., how="outer")] is a routine
    of the pandas library and its code is not in the repository. The
    specification describes an outer join on the identifier that "produces
    unmatched/null rows" where no key matches: every left row is paired with
    each right row of equal key, or with nothing; every right row that no
    left row matches is kept, paired with nothing. *)
Definition merge_outer (left right : list row) (left_on right_on : string)
    : list (option row * option row) :=
  (l ← left;
   match filter (λ r, cell r right_on = cell l left_on) right with
   | [] => [(Some l, None)]
   | matches => (λ r, (Some l, Some r)) <$> matches
   end)
  ++ ((λ r, (None, Some r))
        <$> filter (λ r, Forall (λ l, cell l left_on ≠ cell r right_on) left) right).

(** The key column of one side of the joined table: missing where that side
    of the row is. *)
Definition key_of (part : option row) (name : string) : value :=
  match part with
  | Some r => cell r name
  | None => VNaN
  end.

(** The two merges of the notebook. *)
Definition demo_combine_substance (substance_df demo_bacpac : list row) :=
  merge_outer substance_df demo_bacpac "participant_id" "submitter_id".

Definition demo_combine_function (function_df demo_bacpac : list row) :=
  merge_outer function_df demo_bacpac "participant_id" "submitter_id".

(** ** Further notions used to state properties *)

(** [key] does not end with a character of [chars]. *)
Definition no_trailing (key chars : string) : Prop :=
  ∀ p c, key = p +:+ String c EmptyString → char_in c chars = false.

(** Every cell of a column is a string. *)
Definition all_strings (col : list value) : Prop :=
  ∀ v, v ∈ col → ∃ s, v = VStr s.

(** Every cell of a column is a number or missing. *)
Definition all_numeric (col : list value) : Prop :=
  ∀ v, v ∈ col → v = VNaN ∨ ∃ n, v = VInt n.

(** ** The metadata query of the BACPAC notebook *)

(** What [json.loads] returns: JSON values, an object being a [dict] (its
    fields in order, keys distinct). Numbers are kept as integers; the code
    below never looks at one. *)
#[local] Unset Elimination Schemes.
Inductive json :=
  | JNull
  | JBool (b : bool)
  | JNum (n : Z)
  | JStr (s : string)
  | JArr (items : list json)
  | JObj (fields : list (string * json)).
#[local] Set Elimination Schemes.

(** The entry of key [k] in the fields of a [dict]. *)
Fixpoint assoc (k : string) (fields : list (string * json)) : option json :=
  match fields with
  | [] => None
  | (k', v) :: fields' => if String.eqb k k' then Some v else assoc k fields'
  end.

(** [o.values()], [o.keys()] and [o[k]]: only a [dict] has the two methods;
    a key that is not there is a [KeyError]. *)
Definition dict_values (o : json) : res (list json) :=
  match o with
  | JObj fields => Ok (fields.*2)
  | _ => Raise AttributeError
  end.

Definition dict_keys (o : json) : res (list string) :=
  match o with
  | JObj fields => Ok (fields.*1)
  | _ => Raise AttributeError
  end.

Definition subscript (o : json) (k : string) : res json :=
  match o with
  | JObj fields =>
      match assoc k fields with
      | Some v => Ok v
      | None => Raise KeyError
      end
  | _ => Raise TypeError
  end.

(** [for x in l: acc = body x acc] over items of any kind. *)
Fixpoint for_each {A S : Type} (l : list A) (body : A → S → res S) (acc : S) : res S :=
  match l with
  | [] => Ok acc
  | x :: l' => acc' ← body x acc; for_each l' body acc'
  end.

(** <<
    [sub['gen3_discovery'] for sub in metadata_object.values()
                           if 'gen3_discovery' in sub.keys()]
    >> *)
Definition discovery_blocks (metadata_object : json) : res (list json) :=
  subs ← dict_values metadata_object;
  for_each subs (fun sub blocks =>
    ks ← dict_keys sub;
    if bool_decide ("gen3_discovery" ∈ ks)
    then block ← subscript sub "gen3_discovery"; Ok (blocks ++ [block])
    else Ok blocks) [].

(** The block of a record, when the record is an object that has one. *)
Definition block_of (sub : json) : option json :=
  match sub with
  | JObj fields => assoc "gen3_discovery" fields
  | _ => None
  end.

(** ** The clinical-status list of the ACTT1 notebook *)

(** <<
    [x for x in data["ORDSCRG"].unique().tolist() if str(x) != "nan"]
    >>
    [statuses] is the list the comprehension walks. *)
Definition clinical_status_list (statuses : list value) : list value :=
  filter (λ x, py_str x ≠ "nan") statuses.

(** ** The R functions of the gene-expression notebook *)

(** An R evaluation ends with a value or stops with an error; the only
    error met below is the use of a variable that was never assigned. *)
Inductive r_error :=
  | ObjectNotFound (name : string).

Inductive r_res (A : Type) :=
  | RValue (a : A)
  | RError (e : r_error).
Arguments RValue {A} a.
Arguments RError {A} e.

#[global] Instance r_res_ret : MRet r_res := fun A a => RValue a.
#[global] Instance r_res_bind : MBind r_res := fun A B f m =>
  match m with
  | RValue a => f a
  | RError e => RError e
  end.

(** The value of a variable: an error when no assignment reached it. *)
Definition r_var {A : Type} (name : string) (binding : option A) : r_res A :=
  match binding with
  | Some a => RValue a
  | None => RError (ObjectNotFound name)
  end.

(** [paste(..., sep=sep)] on strings. *)
Fixpoint paste (sep : string) (pieces : list string) : string :=
  match pieces with
  | [] => EmptyString
  | [piece] => piece
  | piece :: pieces' => piece +:+ sep +:+ paste sep pieces'
  end.

(** A character string or [NA], as [paste] prints it. *)
Definition na_text (s : option string) : string :=
  match s with
  | Some s => s
  | None => "NA"
  end.

(** The double quote, and the opening every filter clause shares: an
    object with the field op set to in, and a content object opened up to
    the opening quote of what its field is set to. *)
Definition dq : string := String (ascii_of_nat 34) EmptyString.

Definition op_in_field : string :=
  "{" +:+ dq +:+ "op" +:+ dq +:+ ":" +:+ dq +:+ "in" +:+ dq +:+ ","
  +:+ dq +:+ "content" +:+ dq +:+ ":{" +:+ dq +:+ "field" +:+ dq +:+ ":" +:+ dq.

Section gdc.
(** [URLencode] belongs to R's [utils]; the function is stated for any. *)
Variable URLencode : string → string.

(** <<
    gdcGetURL_new <- function(project.id, data.type) {
        urlAPI <- 'https://api.gdc.cancer.gov/files?'
        if (data.type=='RNAseq') {
            data.category <- 'Transcriptome Profiling'
            data.type <- 'Gene Expression Quantification'
            workflow.type <- 'STAR - Counts'
        } else if (data.type=='miRNAs') {
            data.category <- 'Transcriptome Profiling'
            data.type <- 'Isoform Expression Quantification'
            workflow.type <- 'BCGSC miRNA Profiling'
        } else if (data.type=='Clinical') {
            data.category <- 'Clinical'
            data.type <- 'Clinical Supplement'
            workflow.type <- NA
        } else if (data.type=='pre-miRNAs') {
            data.category <- 'Transcriptome Profiling'
            data.type <- 'miRNA Expression Quantification'
            workflow.type <- 'BCGSC miRNA Profiling'
        }
        project <- paste(..., project.id, ..., sep='')
        dataCategory <- paste(..., data.category, ..., sep='')
        dataType <- paste(..., data.type, ..., sep='')
        workflowType <- paste(..., workflow.type, ..., sep='')
        if (is.na(workflow.type)) {
            dataFormat <- paste(..., 'BCR XML', ..., sep='')
            content <- paste(project, dataCategory, dataType, dataFormat, sep=',')
        } else {
            content <- paste(project, dataCategory, dataType, workflowType, sep=',')
        }
        filters <- paste('filters=',URLencode(paste(..., content, ']}', sep='')),sep='')
        expand <- paste('analysis', ..., sep=',')
        expand <- paste('expand=', expand, sep='')
        payload <- paste(filters, 'pretty=true', 'format=JSON', 'size=10000', expand, sep='&')
        url <- paste(urlAPI, payload, sep='')
        return (url)
    }
    >>
    The three variables the chain of tests may assign are carried as
    optional bindings; [workflow.type], once assigned, is a string or [NA]. *)
Definition gdcGetURL_new (project_id data_type : string) : r_res string :=
  let urlAPI := "https://api.gdc.cancer.gov/files?" in
  let '(data_category, data_type, workflow_type) :=
    if String.eqb data_type "RNAseq" then
      (Some "Transcriptome Profiling", "Gene Expression Quantification",
       Some (Some "STAR - Counts"))
    else if String.eqb data_type "miRNAs" then
      (Some "Transcriptome Profiling", "Isoform Expression Quantification",
       Some (Some "BCGSC miRNA Profiling"))
    else if String.eqb data_type "Clinical" then
      (Some "Clinical", "Clinical Supplement", Some None)
    else if String.eqb data_type "pre-miRNAs" then
      (Some "Transcriptome Profiling", "miRNA Expression Quantification",
       Some (Some "BCGSC miRNA Profiling"))
    else (None, data_type, None) in
  let project :=
    paste EmptyString [op_in_field +:+ "cases.";
                       "project.project_id" +:+ dq +:+ "," +:+ dq +:+ "value" +:+ dq
                         +:+ ":[" +:+ dq;
                       project_id;
                       dq +:+ "]}}"] in
  category ← r_var "data.category" data_category;
  let dataCategory :=
    paste EmptyString [op_in_field +:+ "files.";
                       "data_category" +:+ dq +:+ "," +:+ dq +:+ "value" +:+ dq
                         +:+ ":" +:+ dq;
                       category;
                       dq +:+ "}}"] in
  let dataType :=
    paste EmptyString [op_in_field +:+ "files.data_type" +:+ dq +:+ ",";
                       dq +:+ "value" +:+ dq +:+ ":" +:+ dq;
                       data_type;
                       dq +:+ "}}"] in
  workflow ← r_var "workflow.type" workflow_type;
  let workflowType :=
    paste EmptyString [op_in_field +:+ "files.";
                       "analysis.workflow_type" +:+ dq +:+ "," +:+ dq +:+ "value" +:+ dq
                         +:+ ":" +:+ dq;
                       na_text workflow;
                       dq +:+ "}}"] in
  let content :=
    match workflow with
    | None =>
        let dataFormat :=
          paste EmptyString [op_in_field +:+ "files.";
                             "data_format" +:+ dq +:+ "," +:+ dq +:+ "value" +:+ dq
                               +:+ ":" +:+ dq;
                             "BCR XML";
                             dq +:+ "}}"] in
        paste "," [project; dataCategory; dataType; dataFormat]
    | Some _ => paste "," [project; dataCategory; dataType; workflowType]
    end in
  let filters :=
    paste EmptyString
      ["filters=";
       URLencode (paste EmptyString
                    ["{" +:+ dq +:+ "op" +:+ dq +:+ ":" +:+ dq +:+ "and" +:+ dq +:+ ","
                       +:+ dq +:+ "content" +:+ dq +:+ ":[";
                     content; "]}"])] in
  let expand :=
    paste "," ["analysis"; "analysis.input_files"; "associated_entities";
               "cases"; "cases.diagnoses"; "cases.diagnoses.treatments";
               "cases.demographic"; "cases.project"; "cases.samples";
               "cases.samples.portions"; "cases.samples.portions.analytes";
               "cases.samples.portions.analytes.aliquots";
               "cases.samples.portions.slides"] in
  let expand := paste EmptyString ["expand="; expand] in
  let payload := paste "&" [filters; "pretty=true"; "format=JSON"; "size=10000"; expand] in
  let url := paste EmptyString [urlAPI; payload] in
  RValue url.

End gdc.

(** <<
    sapply(strsplit(combined_df$gene_id,"\\."), `[`, 1)
    >>
    for one gene id: the first of the pieces [strsplit] cuts the id into at
    its dots. The empty id has no piece, and its first piece is [NA]. *)
Fixpoint before_dot (s : string) : string :=
  match s with
  | EmptyString => EmptyString
  | String c s' => if Ascii.eqb c "." then EmptyString else String c (before_dot s')
  end.

Definition first_piece (gene_id : string) : option string :=
  match gene_id with
  | EmptyString => None
  | _ => Some (before_dot gene_id)
  end.

(** * Properties *)

(** ** The functions at work *)

Example age_group_ex :
  age_group [VInt 40; VInt 55; VInt 56; VInt 70]
  = Ok [VStr "40-55 yr"; VStr "40-55 yr"; VStr ">55 yr"; VStr ">55 yr"].
Proof. reflexivity. Qed.

Example find_participant_ex :
  find_participant {[ "submitter_id" := [VStr "P001_sc"; VStr "P001s"; VStr "Pc_sc"] ]} "_sc"
  = Ok [VStr "P001"; VStr "P001"; VStr "P"].
Proof. vm_compute. reflexivity. Qed.

Example find_timepoint_ex :
  find_timepoint {[ "visits.submitter_id" := [VStr "P1 Week 0"; VStr "Week 12"; VStr "x"] ]}
  = Ok [VStr "Week 0"; VStr "Week 12"; VStr "Week 12"].
Proof. vm_compute. reflexivity. Qed.

Example age_group_st_ex :
  ∃ g h', age_group_st 5 1%positive {[ 1%positive := OList [VInt 40; VInt 55; VInt 56; VInt 70] ]}
          = Some (Ok g, h')
        ∧ h' !! g = Some (OList [VStr "40-55 yr"; VStr "40-55 yr"; VStr ">55 yr"; VStr ">55 yr"]).
Proof. do 2 eexists. split; vm_compute; reflexivity. Qed.

Example find_participant_st_ex :
  ∃ g h', find_participant_st 3 1%positive "_pf"
            {[ 1%positive := OFrame {[ "submitter_id" := [VStr "P7_pf"; VStr "P8_pf"] ]} ]}
          = Some (Ok g, h')
        ∧ h' !! g = Some (OList [VStr "P7"; VStr "P8"]).
Proof. do 2 eexists. split; vm_compute; reflexivity. Qed.

Example find_timepoint_st_out_of_fuel :
  find_timepoint_st 1 1%positive
    {[ 1%positive := OFrame {[ "visits.submitter_id" := [VStr "V Week 0"] ]} ]} = None.
Proof. vm_compute. reflexivity. Qed.

Example crosstab_ex :
  crosstab [VStr "White"; VStr "Asian"; VNaN; VStr "White"; VStr "White"]
           [VStr "Male"; VStr "Female"; VStr "Male"; VStr "Male"; VStr "Female"]
  = {| row_labels := [VStr "Asian"; VStr "White"];
       col_labels := [VStr "Male"; VStr "Female"];
       cells := [[0; 1]; [2; 1]] |}.
Proof. vm_compute. reflexivity. Qed.

Example merge_outer_ex :
  (λ j, (key_of j.1 "participant_id", key_of j.2 "submitter_id"))
    <$> demo_combine_substance
          [ {[ "participant_id" := VStr "P1" ]}; {[ "participant_id" := VStr "P9" ]} ]
          [ {[ "submitter_id" := VStr "P1" ]}; {[ "submitter_id" := VStr "P2" ]} ]
  = [ (VStr "P1", VStr "P1"); (VStr "P9", VNaN); (VNaN, VStr "P2") ].
Proof. vm_compute. reflexivity. Qed.

(** ** Facts about the string built-ins *)

Section string_facts.
#[local] Arguments String.append !_ _ / : simpl nomatch.

Lemma get_is_Some (s : string) (p : nat) :
  p < String.length s → ∃ c, String.get p s = Some c.
Proof.
  revert p. induction s as [|a s IH]; intros p Hp; simpl in *; [lia|].
  destruct p as [|p]; [by eexists|]. apply IH. lia.
Qed.

Lemma get_lt_length (s : string) (p : nat) (c : ascii) :
  String.get p s = Some c → p < String.length s.
Proof.
  revert p. induction s as [|a s IH]; intros p Hp; simpl in *; [done|].
  destruct p as [|p]; [lia|]. apply IH in Hp. lia.
Qed.

Lemma length_append (s t : string) :
  String.length (s +:+ t) = String.length s + String.length t.
Proof. induction s as [|a s IH]; simpl; [done|]. by rewrite IH. Qed.

Lemma length_substring (s : string) (n m : nat) :
  n + m ≤ String.length s → String.length (substring n m s) = m.
Proof.
  revert n m. induction s as [|a s IH]; intros n m Hle; simpl in *.
  - destruct n, m; simpl; lia.
  - destruct n as [|n].
    + destruct m as [|m]; simpl; [done|]. rewrite IH; [done|lia].
    + apply IH. lia.
Qed.

Lemma substring_all (s : string) : substring 0 (String.length s) s = s.
Proof. induction s as [|a s IH]; simpl; [done|]. by rewrite IH. Qed.

Lemma substring_split (s : string) (k : nat) :
  k ≤ String.length s →
  s = substring 0 k s +:+ substring k (String.length s - k) s.
Proof.
  revert k. induction s as [|a s IH]; intros k Hk.
  - by destruct k.
  - destruct k as [|k].
    + rewrite Nat.sub_0_r, substring_all. done.
    + simpl in *. f_equal. apply IH. lia.
Qed.

Lemma substring_append_r (p q : string) :
  substring (String.length p) (String.length q) (p +:+ q) = q.
Proof.
  induction p as [|a p IH]; simpl; [|done].
  induction q as [|b q IH]; simpl; [done|]. by f_equal.
Qed.

Lemma all_in_get (t chars : string) :
  all_in t chars = true ↔
  ∀ p c, String.get p t = Some c → char_in c chars = true.
Proof.
  induction t as [|a t IH]; simpl.
  - split; [intros _ p c Hp; by destruct p | done].
  - rewrite andb_true_iff, IH. split.
    + intros [Ha Ht] [|p] c Hp; [by simplify_eq | by eapply Ht].
    + intros H. split; [by apply (H 0) | intros p c Hp; by apply (H (S p))].
Qed.

(** *** The scan of [rstrip] *)

Lemma rstrip_end_le (s chars : string) (j : nat) : rstrip_end s chars j ≤ j.
Proof.
  induction j as [|j IH]; simpl; [done|].
  destruct (String.get j s) as [c|]; [|done].
  destruct (char_in c chars); lia.
Qed.

Lemma rstrip_end_run (s chars : string) (j p : nat) :
  rstrip_end s chars j ≤ p → p < j →
  ∃ c, String.get p s = Some c ∧ char_in c chars = true.
Proof.
  induction j as [|j IH]; simpl; [lia|].
  destruct (String.get j s) as [c|] eqn:Hget; [|lia].
  destruct (char_in c chars) eqn:Hin; [|lia].
  intros Hle Hlt. destruct (decide (p = j)) as [->|]; [by eexists|].
  apply IH; [done|lia].
Qed.

Lemma rstrip_end_stop (s chars : string) (j k : nat) :
  j ≤ String.length s → rstrip_end s chars j = S k →
  ∃ c, String.get k s = Some c ∧ char_in c chars = false.
Proof.
  induction j as [|j IH]; simpl; [done|]. intros Hj.
  destruct (get_is_Some s j) as [c Hget]; [lia|]. rewrite Hget.
  destruct (char_in c chars) eqn:Hin.
  - apply IH. lia.
  - intros [= <-]. by eexists.
Qed.

(** [rstrip] cuts [s] in two: what is kept, and a tail made of characters of
    [chars] only; no longer tail of [s] is made of characters of [chars]. *)
Lemma rstrip_spec (s chars : string) :
  ∃ t, s = rstrip s chars +:+ t
     ∧ all_in t chars = true
     ∧ ∀ p q, s = p +:+ q → all_in q chars = true →
         String.length q ≤ String.length t.
Proof.
  unfold rstrip. set (k := rstrip_end s chars (String.length s)).
  assert (Hk : k ≤ String.length s) by apply rstrip_end_le.
  exists (substring k (String.length s - k) s). split_and!.
  - by apply substring_split.
  - apply all_in_get. intros p c Hp.
    assert (p < String.length s - k) as Hlt.
    { apply get_lt_length in Hp. rewrite length_substring in Hp; lia. }
    rewrite substring_correct1 in Hp by done.
    destruct (rstrip_end_run s chars (String.length s) (p + k)) as (c' & Hc' & Hin);
      [fold k; lia | lia |]. congruence.
  - intros p q Hs Hq. rewrite length_substring by lia.
    assert (String.length s = String.length p + String.length q) as Hlen.
    { rewrite Hs at 1. apply length_append. }
    destruct (decide (k ≤ String.length p)) as [|Hgt]; [lia|].
    destruct k as [|k'] eqn:Ek; [lia|].
    destruct (rstrip_end_stop s chars (String.length s) k') as (c & Hc & Hout);
      [done | done |].
    rewrite all_in_get in Hq. specialize (Hq (k' - String.length p) c).
    rewrite append_correct2 with (s1 := p) in Hq.
    replace (k' - String.length p + String.length p) with k' in Hq by lia.
    rewrite <- Hs in Hq. rewrite Hq in Hout; done.
Qed.

(** What [rstrip] keeps does not end with a character of [chars]. *)
Lemma rstrip_last (s chars r : string) (c : ascii) :
  rstrip s chars = r +:+ String c EmptyString → char_in c chars = false.
Proof.
  unfold rstrip. set (k := rstrip_end s chars (String.length s)).
  assert (Hk : k ≤ String.length s) by apply rstrip_end_le.
  intros Hr.
  assert (k = S (String.length r)) as Ek.
  { rewrite <- (length_substring s 0 k) by lia. rewrite Hr, length_append. simpl. lia. }
  destruct (rstrip_end_stop s chars (String.length s) (String.length r))
    as (c' & Hc' & Hout); [done | done |].
  assert (String.get (String.length r) (substring 0 k s) = Some c) as Hget.
  { rewrite Hr. change (String.length r) with (0 + String.length r).
    by rewrite <- append_correct2. }
  rewrite substring_correct1 in Hget by lia.
  rewrite Nat.add_0_r in Hget. congruence.
Qed.

(** [endswith] decides that [s] is some string followed by [suffix]. *)
Lemma endswith_spec (s suffix : string) :
  endswith s suffix = true ↔ ∃ p, s = p +:+ suffix.
Proof.
  unfold endswith. split.
  - destruct (Nat.leb_spec (String.length suffix) (String.length s)) as [Hle|]; [|done].
    intros Heq%String.eqb_eq.
    exists (substring 0 (String.length s - String.length suffix) s).
    etrans; [apply (substring_split s (String.length s - String.length suffix)); lia|].
    f_equal.
    by replace (String.length s - (String.length s - String.length suffix))
      with (String.length suffix) by lia.
  - intros [p ->]. rewrite length_append.
    destruct (Nat.leb_spec (String.length suffix) (String.length p + String.length suffix));
      [|lia].
    replace (String.length p + String.length suffix - String.length suffix)
      with (String.length p) by lia.
    rewrite substring_append_r. apply String.eqb_refl.
Qed.

Lemma append_cancel_r (s1 s2 t : string) : s1 +:+ t = s2 +:+ t → s1 = s2.
Proof.
  revert s2. induction s1 as [|a s1 IH]; intros [|b s2] Heq; simpl in *.
  - done.
  - apply (f_equal String.length) in Heq. simpl in Heq. rewrite length_append in Heq. lia.
  - apply (f_equal String.length) in Heq. simpl in Heq. rewrite length_append in Heq. lia.
  - injection Heq as -> Heq. f_equal. by apply IH.
Qed.

End string_facts.

(** ** Facts about the built-ins on values *)

Lemma min_from_ints (cur : Z) (l : list Z) :
  ∃ m, min_from (VInt cur) (VInt <$> l) = Ok (VInt m)
     ∧ m ∈ cur :: l
     ∧ ∀ a, a ∈ cur :: l → (m ≤ a)%Z.
Proof.
  revert cur. induction l as [|x l IH]; intros cur; csimpl.
  - exists cur. split_and!; [done | by left |]. intros a ->%list_elem_of_singleton. lia.
  - destruct (Z.ltb_spec x cur) as [Hlt|Hge]; csimpl.
    + destruct (IH x) as (m & -> & Hin & Hmin). exists m.
      split_and!; [done | by right |].
      intros a Ha. assert (m ≤ x)%Z by (apply Hmin; by left).
      apply elem_of_cons in Ha as [->|Ha]; [lia|]. by apply Hmin.
    + destruct (IH cur) as (m & -> & Hin & Hmin). exists m. split_and!; [done | |].
      { apply elem_of_cons in Hin as [->|Hin]; [by left | by do 2 right]. }
      intros a Ha. assert (m ≤ cur)%Z by (apply Hmin; by left).
      apply elem_of_cons in Ha as [->|Ha]; [lia|].
      apply elem_of_cons in Ha as [->|Ha]; [lia|]. apply Hmin. by right.
Qed.

Lemma py_min_ints (ages : list Z) :
  ages ≠ [] →
  ∃ m, py_min (VInt <$> ages) = Ok (VInt m) ∧ m ∈ ages ∧ ∀ a, a ∈ ages → (m ≤ a)%Z.
Proof. destruct ages as [|x l]; [done|]. intros _. apply min_from_ints. Qed.

(** [str] of an integer determines the integer. *)
Lemma py_str_int_inj (m m' : Z) : py_str (VInt m) = py_str (VInt m') → m = m'.
Proof.
  simpl. intros Heq.
  assert (∀ z, Z.to_int z ≠ Decimal.Pos Decimal.Nil ∧ Z.to_int z ≠ Decimal.Neg Decimal.Nil) as Hnil.
  { intros [|p|p]; csimpl; split; try done.
    - intros [= H]. by apply (DecimalPos.Unsigned.to_uint_nonnil p).
    - intros [= H]. by apply (DecimalPos.Unsigned.to_uint_nonnil p). }
  assert (Some (Z.to_int m) = Some (Z.to_int m')) as [= Hint].
  { rewrite <- (NilZero.isi (Z.to_int m)), <- (NilZero.isi (Z.to_int m')) by apply Hnil.
    by rewrite Heq. }
  by apply DecimalZ.to_int_inj.
Qed.

(** ** Facts about the loops of the three functions *)

Lemma for_in_age_group (l1 l2 : string) (ages : list Z) (acc : list value) :
  for_in (VInt <$> ages) (fun i grouplist =>
    b ← py_le i (VInt 55);
    if b : bool then Ok (grouplist ++ [VStr l1]) else Ok (grouplist ++ [VStr l2])) acc
  = Ok (acc ++ ((λ a, VStr (if (a <=? 55)%Z then l1 else l2)) <$> ages)).
Proof.
  revert acc. induction ages as [|a ages IH]; intros acc; csimpl.
  - by rewrite app_nil_r.
  - destruct (a <=? 55)%Z; csimpl; rewrite IH, <- app_assoc; done.
Qed.

Lemma for_in_find_participant (endstr : string) (col : list string) (acc : list value) :
  for_in (VStr <$> col) (fun i participant_id =>
    i_participant ← meth_rstrip i endstr;
    Ok (participant_id ++ [i_participant])) acc
  = Ok (acc ++ (VStr <$> ((λ s, rstrip s endstr) <$> col))).
Proof.
  revert acc. induction col as [|s col IH]; intros acc; csimpl.
  - by rewrite app_nil_r.
  - rewrite IH, <- app_assoc. done.
Qed.

Lemma for_in_find_timepoint (col : list string) (acc : list value) :
  for_in (VStr <$> col) (fun i timepoint =>
    b ← meth_endswith i "Week 0";
    if b : bool
    then Ok (timepoint ++ [VStr "Week 0"])
    else Ok (timepoint ++ [VStr "Week 12"])) acc
  = Ok (acc ++ ((λ s, VStr (if endswith s "Week 0" then "Week 0" else "Week 12")) <$> col)).
Proof.
  revert acc. induction col as [|s col IH]; intros acc; csimpl.
  - by rewrite app_nil_r.
  - destruct (endswith s "Week 0"); csimpl; rewrite IH, <- app_assoc; done.
Qed.

(** A cell that is not a string stops the loop of [find_timepoint]. *)
Lemma for_in_find_timepoint_raise (col : list value) (acc : list value) :
  (∃ v, v ∈ col ∧ ∀ s, v ≠ VStr s) →
  for_in col (fun i timepoint =>
    b ← meth_endswith i "Week 0";
    if b : bool
    then Ok (timepoint ++ [VStr "Week 0"])
    else Ok (timepoint ++ [VStr "Week 12"])) acc
  = Raise AttributeError.
Proof.
  revert acc. induction col as [|x col IH]; intros acc (v & Hin & Hv).
  - by apply elem_of_nil in Hin.
  - csimpl. destruct x as [n|s|]; csimpl; [done| |done].
    apply elem_of_cons in Hin as [->|Hin]; [by destruct (Hv s)|].
    destruct (endswith s "Week 0"); csimpl; apply IH; eauto.
Qed.

(** On its own labels the loop of [find_timepoint] copies the column. *)
Lemma for_in_find_timepoint_labels (col : list value) (acc : list value) :
  (∀ v, v ∈ col → v = VStr "Week 0" ∨ v = VStr "Week 12") →
  for_in col (fun i timepoint =>
    b ← meth_endswith i "Week 0";
    if b : bool
    then Ok (timepoint ++ [VStr "Week 0"])
    else Ok (timepoint ++ [VStr "Week 12"])) acc
  = Ok (acc ++ col).
Proof.
  revert acc. induction col as [|v col IH]; intros acc Hlab; csimpl.
  - by rewrite app_nil_r.
  - destruct (Hlab v) as [-> | ->]; [by left| |]; csimpl;
      (rewrite IH; [by rewrite <- app_assoc | intros w Hw; apply Hlab; by right]).
Qed.

(** ** The identifier-join utility: [find_participant] *)

(** C1. Applied to a table whose key column holds the single key "P001_sc",
    with the suffix string "_sc", [find_participant] returns the single
    identifier "P001". *)
Theorem find_participant_P001_sc (mydf : frame) :
  mydf !! "submitter_id" = Some [VStr "P001_sc"] →
  find_participant mydf "_sc" = Ok [VStr "P001"].
Proof. intros Hcol. unfold find_participant, getitem. rewrite Hcol. reflexivity. Qed.

Lemma find_participant_P001_sc_witness :
  find_participant {[ "submitter_id" := [VStr "P001_sc"] ]} "_sc" = Ok [VStr "P001"].
Proof. apply find_participant_P001_sc. reflexivity. Defined.

(** C2. The key "P001s" does not end with the suffix "_sc", yet
    [find_participant] does not return it unchanged: its final "s" is one of
    the characters of "_sc" and is removed. *)
Theorem find_participant_non_suffix_shortened :
  endswith "P001s" "_sc" = false
  ∧ find_participant {[ "submitter_id" := [VStr "P001s"] ]} "_sc" = Ok [VStr "P001"].
Proof. split; vm_compute; reflexivity. Qed.

(** C3. On a key column of strings [find_participant] raises nothing and
    returns, for each key, the key without its longest tail made of
    characters of [endstr] (the behaviour of [str.rstrip]): the result is a
    prefix of the key, the removed tail [t] consists of characters of
    [endstr], no longer tail of the key does, and a key whose last character
    belongs to [endstr] gets strictly shorter. The key "P001s" with "_sc" is
    an instance: it does not end with "_sc" and "P001" is returned. *)
Theorem find_participant_rstrip (mydf : frame) (endstr : string) (col : list string) :
  mydf !! "submitter_id" = Some (VStr <$> col) →
  ∃ out : list string,
    find_participant mydf endstr = Ok (VStr <$> out)
    ∧ length out = length col
    ∧ (∀ i key, col !! i = Some key →
        ∃ r t, out !! i = Some r
             ∧ key = r +:+ t
             ∧ all_in t endstr = true
             ∧ (∀ p q, key = p +:+ q → all_in q endstr = true →
                  String.length q ≤ String.length t)
             ∧ (∀ p c, key = p +:+ String c EmptyString → char_in c endstr = true →
                  String.length r < String.length key))
    ∧ (col = ["P001s"] → endstr = "_sc" →
        out = ["P001"] ∧ endswith "P001s" "_sc" = false).
Proof.
  intros Hcol. exists ((λ s, rstrip s endstr) <$> col). split_and!.
  - unfold find_participant, getitem. rewrite Hcol. csimpl.
    by rewrite for_in_find_participant.
  - by rewrite length_fmap.
  - intros i key Hi. destruct (rstrip_spec key endstr) as (t & Hkey & Ht & Hmax).
    exists (rstrip key endstr), t. split_and!; [|done..|].
    + by rewrite list_lookup_fmap, Hi.
    + intros p c Hp Hc. specialize (Hmax p (String c EmptyString) Hp).
      simpl in Hmax. rewrite Hc in Hmax. specialize (Hmax eq_refl).
      rewrite Hkey at 2. rewrite length_append. lia.
  - intros -> ->. split; vm_compute; reflexivity.
Qed.

Lemma find_participant_rstrip_witness :
  ∃ out : list string,
    find_participant {[ "submitter_id" := [VStr "P001s"; VStr "P002_sc"] ]} "_sc"
    = Ok (VStr <$> out)
    ∧ out !! 0 = Some "P001" ∧ out !! 1 = Some "P002".
Proof.
  assert (({[ "submitter_id" := [VStr "P001s"; VStr "P002_sc"] ]} : frame) !! "submitter_id"
          = Some (VStr <$> ["P001s"; "P002_sc"])) as Hcol by reflexivity.
  destruct (find_participant_rstrip _ "_sc" _ Hcol) as (out & Hrun & _).
  exists out. split; [exact Hrun|].
  vm_compute in Hrun. destruct out as [|a [|b [|c out]]]; simplify_eq. done.
Defined.

(** ** The category-derivation utility: [age_group] *)

(** C4. Applied to the ages [40, 55, 56, 70] (the threshold 55 is the
    constant of the code), [age_group] returns
    ["40-55 yr", "40-55 yr", ">55 yr", ">55 yr"]. *)
Theorem age_group_40_55_56_70 :
  age_group [VInt 40; VInt 55; VInt 56; VInt 70]
  = Ok [VStr "40-55 yr"; VStr "40-55 yr"; VStr ">55 yr"; VStr ">55 yr"].
Proof. reflexivity. Qed.

(** C5. The empty list makes [age_group] raise ([min] of an empty sequence).
    On every non-empty list of integer ages it raises nothing and returns a
    list of the same length; with [m] the minimum of the input, an age
    [<= 55] is labelled [str(m) + "-55 yr"] and an age [> 55] is labelled
    ">55 yr". Different minima give different low-group labels. *)
Theorem age_group_labels :
  age_group [] = Raise ValueError
  ∧ (∀ ages : list Z, ages ≠ [] →
      ∃ (m : Z) (out : list value),
        age_group (VInt <$> ages) = Ok out
        ∧ m ∈ ages ∧ (∀ a, a ∈ ages → (m ≤ a)%Z)
        ∧ length out = length ages
        ∧ ∀ i a, ages !! i = Some a →
            out !! i = Some (VStr (if decide (a ≤ 55)%Z
                                   then py_str (VInt m) +:+ "-55 yr"
                                   else ">55 yr")))
  ∧ (∀ m m' : Z,
      py_str (VInt m) +:+ "-55 yr" = py_str (VInt m') +:+ "-55 yr" → m = m').
Proof.
  split_and!.
  - reflexivity.
  - intros ages Hne. destruct (py_min_ints ages Hne) as (m & Hmin & Hin & Hle).
    exists m, ((λ a, VStr (if (a <=? 55)%Z then py_str (VInt m) +:+ "-55 yr" else ">55 yr"))
               <$> ages).
    split_and!; [|done|done| |].
    + unfold age_group. rewrite Hmin. csimpl. by rewrite for_in_age_group.
    + by rewrite length_fmap.
    + intros i a Hi. rewrite list_lookup_fmap, Hi. csimpl.
      destruct (Z.leb_spec a 55); case_decide; (done || lia).
  - intros m m' Heq. by apply py_str_int_inj, append_cancel_r with "-55 yr".
Qed.

Lemma age_group_labels_witness :
  ∃ out, age_group (VInt <$> [70; 31; 55]%Z) = Ok out
       ∧ out !! 1 = Some (VStr "31-55 yr") ∧ out !! 0 = Some (VStr ">55 yr").
Proof.
  destruct (proj1 (proj2 age_group_labels) [70; 31; 55]%Z ltac:(discriminate))
    as (m & out & Hrun & _).
  exists out. split; [exact Hrun|].
  vm_compute in Hrun. by simplify_eq.
Defined.

(** ** The category-derivation utility: [find_timepoint] *)

(** C6, as the code has it. [find_timepoint] has no error handling. On a
    visit-label column of strings it raises nothing and maps every label
    that does not end with "Week 0" to "Week 12"; a column holding a cell
    that is not a string, such as the [nan] an outer join leaves in an
    unmatched row, makes it raise [AttributeError]. *)
Theorem find_timepoint_default_bucket (mydf : frame) :
  (∀ col : list string,
     mydf !! "visits.submitter_id" = Some (VStr <$> col) →
     ∃ out, find_timepoint mydf = Ok out
          ∧ length out = length col
          ∧ ∀ i s, col !! i = Some s → (¬ ∃ p, s = p +:+ "Week 0") →
              out !! i = Some (VStr "Week 12"))
  ∧ (∀ col : list value,
       mydf !! "visits.submitter_id" = Some col →
       (∃ v, v ∈ col ∧ ∀ s, v ≠ VStr s) →
       find_timepoint mydf = Raise AttributeError).
Proof.
  split.
  - intros col Hcol.
    exists ((λ s, VStr (if endswith s "Week 0" then "Week 0" else "Week 12")) <$> col).
    split_and!.
    + unfold find_timepoint, getitem. rewrite Hcol. csimpl.
      by rewrite for_in_find_timepoint.
    + by rewrite length_fmap.
    + intros i s Hi Hnot. rewrite list_lookup_fmap, Hi. csimpl.
      destruct (endswith s "Week 0") eqn:Hend; [|done].
      by apply endswith_spec in Hend.
  - intros col Hcol Hbad. unfold find_timepoint, getitem. rewrite Hcol. csimpl.
    by apply for_in_find_timepoint_raise.
Qed.

Lemma find_timepoint_default_bucket_witness :
  (∃ out, find_timepoint {[ "visits.submitter_id" := [VStr "V1 Week 0"; VStr "V1 Week 6"] ]}
          = Ok out ∧ length out = 2)
  ∧ find_timepoint {[ "visits.submitter_id" := [VStr "V1 Week 0"; VNaN] ]}
    = Raise AttributeError.
Proof.
  split.
  - assert (({[ "visits.submitter_id" := [VStr "V1 Week 0"; VStr "V1 Week 6"] ]} : frame)
              !! "visits.submitter_id" = Some (VStr <$> ["V1 Week 0"; "V1 Week 6"]))
      as Hcol by reflexivity.
    destruct (proj1 (find_timepoint_default_bucket _) _ Hcol) as (out & Hrun & Hlen & _).
    by exists out.
  - assert (({[ "visits.submitter_id" := [VStr "V1 Week 0"; VNaN] ]} : frame)
              !! "visits.submitter_id" = Some [VStr "V1 Week 0"; VNaN])
      as Hcol by reflexivity.
    apply (proj2 (find_timepoint_default_bucket _) _ Hcol).
    exists VNaN. split; [|done]. apply elem_of_cons. right. by left.
Defined.

(** C6, as the specification states it, fails: a missing visit label is not
    sent to "Week 12", the call raises. *)
Lemma find_timepoint_null_raises :
  find_timepoint {[ "visits.submitter_id" := [VNaN] ]} = Raise AttributeError
  ∧ ¬ ∃ out, find_timepoint {[ "visits.submitter_id" := [VNaN] ]} = Ok out
           ∧ out !! 0 = Some (VStr "Week 12").
Proof. split; [reflexivity|]. intros (out & Hrun & _). vm_compute in Hrun. discriminate. Qed.

(** C9. On a column whose values are already "Week 0" or "Week 12",
    [find_timepoint] returns the column unchanged. *)
Theorem find_timepoint_idempotent (mydf : frame) (col : list value) :
  mydf !! "visits.submitter_id" = Some col →
  (∀ v, v ∈ col → v = VStr "Week 0" ∨ v = VStr "Week 12") →
  find_timepoint mydf = Ok col.
Proof.
  intros Hcol Hlab. unfold find_timepoint, getitem. rewrite Hcol. csimpl.
  by rewrite for_in_find_timepoint_labels.
Qed.

Lemma find_timepoint_idempotent_witness :
  find_timepoint {[ "visits.submitter_id" := [VStr "Week 0"; VStr "Week 12"] ]}
  = Ok [VStr "Week 0"; VStr "Week 12"].
Proof.
  apply find_timepoint_idempotent; [reflexivity|].
  intros v Hv. apply elem_of_cons in Hv as [->|Hv]; [by left|].
  apply elem_of_cons in Hv as [->|Hv]; [by right|]. by apply elem_of_nil in Hv.
Defined.

(** ** The store-level functions against the value-level ones *)

Lemma M_bind_ok {A B : Type} (m : M A) (f : A → M B) (h h' : heap) (a : A) :
  m h = Some (Ok a, h') → (m ≫= f) h = f a h'.
Proof. intros Hm. unfold mbind, M_bind. by rewrite Hm. Qed.

Lemma M_bind_raise {A B : Type} (m : M A) (f : A → M B) (h h' : heap) (e : exn) :
  m h = Some (Raise e, h') → (m ≫= f) h = Some (Raise e, h').
Proof. intros Hm. unfold mbind, M_bind. by rewrite Hm. Qed.

(** One step of a loop body whose test has been decided: unfold the binds
    and read the list the body appends to. *)
Ltac body_step Hacc :=
  unfold mbind, M_bind, res_bind, lift, list_append; rewrite ?Hacc; done.

Lemma preserved_insert_fresh (h : heap) (g : loc) (o : obj) :
  h !! g = None → preserved h (<[g := o]> h).
Proof.
  intros Hg l o' Hl. rewrite lookup_insert_ne; [done|]. intros <-. congruence.
Qed.

Lemma new_list_fresh (items : list value) (h : heap) :
  ∃ g, h !! g = None ∧ new_list items h = Some (Ok g, <[g := OList items]> h).
Proof.
  exists (fresh (dom h)). split; [|done].
  apply not_elem_of_dom. apply is_fresh.
Qed.

(** With fuel beyond the length of the list walked, such a loop finishes,
    touches the list at [g] only, and leaves there what [for_in] computes. *)
Lemma for_list_for_in (l g : loc) (items : list value)
    (body : value → M unit) (pure : value → list value → res (list value)) :
  l ≠ g → appends_like g body pure →
  ∀ fuel i acc h,
    h !! l = Some (OList items) → h !! g = Some (OList acc) →
    length items - i < fuel →
    match for_in (drop i items) pure acc with
    | Ok acc' => for_list fuel l i body h = Some (Ok (), <[g := OList acc']> h)
    | Raise e => ∃ acc', for_list fuel l i body h = Some (Raise e, <[g := OList acc']> h)
    end.
Proof.
  intros Hne Hbody fuel. induction fuel as [|fuel IH]; intros i acc h Hl Hg Hfuel; [lia|].
  cbn [for_list].
  rewrite (M_bind_ok _ _ h h (items !! i)) by (unfold list_next; by rewrite Hl).
  destruct (items !! i) as [v|] eqn:Hi.
  - pose proof (lookup_lt_Some _ _ _ Hi) as Hlt.
    rewrite (drop_S _ _ _ Hi). cbn [for_in].
    specialize (Hbody v acc h Hg).
    destruct (pure v acc) as [acc1|e] eqn:Hpure; csimpl.
    + rewrite (M_bind_ok _ _ _ _ _ Hbody).
      specialize (IH (S i) acc1 (<[g := OList acc1]> h)).
      rewrite lookup_insert_ne, lookup_insert_eq in IH by done.
      specialize (IH Hl eq_refl ltac:(lia)).
      destruct (for_in (drop (S i) items) pure acc1) as [acc'|e].
      * by rewrite IH, insert_insert_eq.
      * destruct IH as [acc' ->]. exists acc'. by rewrite insert_insert_eq.
    + rewrite (M_bind_raise _ _ _ _ _ Hbody). exists acc. by rewrite insert_id.
  - rewrite drop_ge by (by apply lookup_ge_None). cbn [for_in].
    by rewrite insert_id.
Qed.

Lemma computes_same_outcome (run1 run2 : res loc * heap) (r : res (list value)) :
  computes run1 r → computes run2 r → same_outcome run1 run2.
Proof.
  destruct r as [out|e], run1 as [[g1|e1] h1], run2 as [[g2|e2] h2]; simpl; try done.
  - intros H1 H2. by exists out.
  - by intros -> ->.
Qed.

(** [age_group_st] on a list object computes what [age_group] computes on
    its items, in a new list object, and leaves every other object alone. *)
Lemma age_group_st_run (fuel : nat) (h : heap) (agelist : loc) (items : list value) :
  h !! agelist = Some (OList items) → length items < fuel →
  ∃ run, age_group_st fuel agelist h = Some run
       ∧ computes run (age_group items)
       ∧ preserved h run.2.
Proof.
  intros Hl Hfuel. unfold age_group_st, age_group.
  rewrite (M_bind_ok _ _ h h items) by (unfold list_items; by rewrite Hl).
  destruct (py_min items) as [min_age|e] eqn:Hmin; csimpl.
  - rewrite (M_bind_ok _ _ h h min_age) by done.
    destruct (new_list_fresh [] h) as (g & Hg & Hnew).
    rewrite (M_bind_ok _ _ _ _ _ Hnew).
    assert (agelist ≠ g) as Hne by congruence.
    set (l1 := py_str min_age +:+ "-55 yr").
    pose proof (for_list_for_in agelist g items
      (fun i => b ← lift (py_le i (VInt 55));
                if b : bool then list_append g (VStr l1) else list_append g (VStr ">55 yr"))
      (fun i grouplist => b ← py_le i (VInt 55);
                if b : bool then Ok (grouplist ++ [VStr l1])
                else Ok (grouplist ++ [VStr ">55 yr"])) Hne) as Hloop.
    specialize (Hloop ltac:(
      intros v acc h0 Hacc; destruct (py_le v (VInt 55)) as [[]|]; body_step Hacc)).
    specialize (Hloop fuel 0 [] (<[g := OList []]> h)).
    rewrite lookup_insert_ne, lookup_insert_eq in Hloop by done.
    specialize (Hloop Hl eq_refl ltac:(lia)). rewrite drop_0 in Hloop.
    destruct (for_in items _ []) as [out|e].
    + rewrite insert_insert_eq in Hloop.
      exists (Ok g, <[g := OList out]> h). split_and!.
      * by rewrite (M_bind_ok _ _ _ _ _ Hloop).
      * apply lookup_insert_eq.
      * by apply preserved_insert_fresh.
    + destruct Hloop as [acc' Hloop]. rewrite insert_insert_eq in Hloop.
      exists (Raise e, <[g := OList acc']> h). split_and!.
      * by rewrite (M_bind_raise _ _ _ _ _ Hloop).
      * done.
      * by apply preserved_insert_fresh.
  - exists (Raise e, h). split_and!; [|done|by intros ??].
    by rewrite (M_bind_raise _ _ h h e).
Qed.

(** The shape shared by [find_participant] and [find_timepoint]: a new
    result list, a copy of one column of the frame, a loop over the copy
    that appends to the result. *)
Lemma column_loop_run (fuel : nat) (h : heap) (mydf : loc)
    (columns : gmap string (list value)) (name : string)
    (body : loc → value → M unit) (pure : value → list value → res (list value)) :
  h !! mydf = Some (OFrame columns) →
  (∀ col, columns !! name = Some col → length col < fuel) →
  (∀ g, appends_like g (body g) pure) →
  ∃ run,
    (result ← new_list [];
     col ← frame_getitem mydf name;
     copy ← new_list col;
     for_list fuel copy 0 (body result) ≫= λ _, mret result) h = Some run
    ∧ computes run (col ← getitem columns name; for_in col pure [])
    ∧ preserved h run.2.
Proof.
  intros Hdf Hfuel Hbody.
  destruct (new_list_fresh [] h) as (g & Hg & Hnew).
  rewrite (M_bind_ok _ _ _ _ _ Hnew).
  assert (mydf ≠ g) as Hne by congruence.
  unfold getitem.
  destruct (columns !! name) as [col|] eqn:Hcol; csimpl.
  - rewrite (M_bind_ok _ _ _ (<[g := OList []]> h) col);
      [|unfold frame_getitem, getitem; by rewrite lookup_insert_ne, Hdf, Hcol].
    destruct (new_list_fresh col (<[g := OList []]> h)) as (v & Hv & Hnewv).
    rewrite (M_bind_ok _ _ _ _ _ Hnewv).
    assert (v ≠ g) as Hvg by (intros ->; by rewrite lookup_insert_eq in Hv).
    assert (h !! v = None) as Hv' by (by rewrite lookup_insert_ne in Hv).
    pose proof (for_list_for_in v g col (body g) pure Hvg (Hbody g)
                  fuel 0 [] (<[v := OList col]> (<[g := OList []]> h))) as Hloop.
    rewrite lookup_insert_eq, lookup_insert_ne, lookup_insert_eq in Hloop by done.
    specialize (Hloop eq_refl eq_refl ltac:(specialize (Hfuel col eq_refl); lia)).
    rewrite drop_0 in Hloop.
    assert (∀ acc, preserved h (<[g := OList acc]> (<[v := OList col]> (<[g := OList []]> h))))
      as Hpres.
    { intros acc l o Hl. rewrite !lookup_insert_ne; [done|intros <-; congruence..]. }
    destruct (for_in col pure []) as [out|e].
    + eexists (Ok g, _). split_and!.
      * by rewrite (M_bind_ok _ _ _ _ _ Hloop).
      * apply lookup_insert_eq.
      * apply Hpres.
    + destruct Hloop as [acc' Hloop]. eexists (Raise e, _). split_and!.
      * by rewrite (M_bind_raise _ _ _ _ _ Hloop).
      * done.
      * apply Hpres.
  - exists (Raise KeyError, <[g := OList []]> h). split_and!.
    + rewrite (M_bind_raise _ _ _ (<[g := OList []]> h) KeyError); [done|].
      unfold frame_getitem, getitem. by rewrite lookup_insert_ne, Hdf, Hcol.
    + done.
    + by apply preserved_insert_fresh.
Qed.

(** [find_participant_st] on a frame object computes what [find_participant]
    computes on its columns, in a new list object, and leaves every other
    object alone. *)
Lemma find_participant_st_run (fuel : nat) (h : heap) (mydf : loc)
    (columns : gmap string (list value)) (endstr : string) :
  h !! mydf = Some (OFrame columns) →
  (∀ col, columns !! "submitter_id" = Some col → length col < fuel) →
  ∃ run, find_participant_st fuel mydf endstr h = Some run
       ∧ computes run (find_participant columns endstr)
       ∧ preserved h run.2.
Proof.
  intros Hdf Hfuel.
  apply (column_loop_run fuel h mydf columns "submitter_id"
           (fun participant_id i =>
              i_participant ← lift (meth_rstrip i endstr);
              list_append participant_id i_participant)
           (fun i participant_id =>
              i_participant ← meth_rstrip i endstr;
              Ok (participant_id ++ [i_participant])) Hdf Hfuel).
  intros g v acc h0 Hacc. destruct (meth_rstrip v endstr); body_step Hacc.
Qed.

(** Likewise for [find_timepoint_st] and [find_timepoint]. *)
Lemma find_timepoint_st_run (fuel : nat) (h : heap) (mydf : loc)
    (columns : gmap string (list value)) :
  h !! mydf = Some (OFrame columns) →
  (∀ col, columns !! "visits.submitter_id" = Some col → length col < fuel) →
  ∃ run, find_timepoint_st fuel mydf h = Some run
       ∧ computes run (find_timepoint columns)
       ∧ preserved h run.2.
Proof.
  intros Hdf Hfuel.
  apply (column_loop_run fuel h mydf columns "visits.submitter_id"
           (fun timepoint i =>
              b ← lift (meth_endswith i "Week 0");
              if b : bool
              then list_append timepoint (VStr "Week 0")
              else list_append timepoint (VStr "Week 12"))
           (fun i timepoint =>
              b ← meth_endswith i "Week 0";
              if b : bool
              then Ok (timepoint ++ [VStr "Week 0"])
              else Ok (timepoint ++ [VStr "Week 12"])) Hdf Hfuel).
  intros g v acc h0 Hacc. destruct (meth_endswith v "Week 0") as [[]|]; body_step Hacc.
Qed.

(** C10. [age_group] and [find_timepoint] are deterministic and leave their
    input alone. Two runs, in any two stores, on list objects with equal
    items (for [find_timepoint]: on frames with equal visit-label columns)
    both finish, with the same exception or with lists of equal items; and
    after each run every object that was in its store, the input column
    among them, is unchanged. *)
Theorem category_derivation_deterministic_pure :
  (∀ (fuel1 fuel2 : nat) (h1 h2 : heap) (agelist1 agelist2 : loc) (items : list value),
     h1 !! agelist1 = Some (OList items) →
     h2 !! agelist2 = Some (OList items) →
     length items < fuel1 → length items < fuel2 →
     ∃ run1 run2,
       age_group_st fuel1 agelist1 h1 = Some run1
       ∧ age_group_st fuel2 agelist2 h2 = Some run2
       ∧ same_outcome run1 run2
       ∧ preserved h1 run1.2 ∧ preserved h2 run2.2)
  ∧ (∀ (fuel1 fuel2 : nat) (h1 h2 : heap) (mydf1 mydf2 : loc)
       (columns1 columns2 : gmap string (list value)) (col : list value),
     h1 !! mydf1 = Some (OFrame columns1) →
     h2 !! mydf2 = Some (OFrame columns2) →
     columns1 !! "visits.submitter_id" = Some col →
     columns2 !! "visits.submitter_id" = Some col →
     length col < fuel1 → length col < fuel2 →
     ∃ run1 run2,
       find_timepoint_st fuel1 mydf1 h1 = Some run1
       ∧ find_timepoint_st fuel2 mydf2 h2 = Some run2
       ∧ same_outcome run1 run2
       ∧ preserved h1 run1.2 ∧ preserved h2 run2.2).
Proof.
  split.
  - intros fuel1 fuel2 h1 h2 l1 l2 items Hl1 Hl2 Hf1 Hf2.
    destruct (age_group_st_run fuel1 h1 l1 items Hl1 Hf1) as (run1 & Hrun1 & Hc1 & Hp1).
    destruct (age_group_st_run fuel2 h2 l2 items Hl2 Hf2) as (run2 & Hrun2 & Hc2 & Hp2).
    exists run1, run2. split_and!; [done..| |done|done].
    by apply computes_same_outcome with (age_group items).
  - intros fuel1 fuel2 h1 h2 df1 df2 columns1 columns2 col Hdf1 Hdf2 Hcol1 Hcol2 Hf1 Hf2.
    destruct (find_timepoint_st_run fuel1 h1 df1 columns1 Hdf1)
      as (run1 & Hrun1 & Hc1 & Hp1); [intros c Hc; by simplify_eq|].
    destruct (find_timepoint_st_run fuel2 h2 df2 columns2 Hdf2)
      as (run2 & Hrun2 & Hc2 & Hp2); [intros c Hc; by simplify_eq|].
    exists run1, run2. split_and!; [done..| |done|done].
    apply computes_same_outcome with (find_timepoint columns1); [done|].
    replace (find_timepoint columns1) with (find_timepoint columns2); [done|].
    unfold find_timepoint, getitem. by rewrite Hcol1, Hcol2.
Qed.

Lemma category_derivation_deterministic_pure_witness :
  (∃ run1 run2,
     age_group_st 3 1%positive {[ 1%positive := OList [VInt 40; VInt 60] ]} = Some run1
     ∧ age_group_st 9 4%positive
         (<[ 4%positive := OList [VInt 40; VInt 60] ]> {[ 1%positive := OList [VStr "x"] ]})
       = Some run2
     ∧ same_outcome run1 run2)
  ∧ (∃ run1 run2,
       find_timepoint_st 2 1%positive
         {[ 1%positive := OFrame {[ "visits.submitter_id" := [VStr "V Week 0"] ]} ]} = Some run1
       ∧ find_timepoint_st 5 2%positive
           {[ 2%positive := OFrame (<[ "sex" := [VStr "Male"] ]>
                                      {[ "visits.submitter_id" := [VStr "V Week 0"] ]}) ]}
         = Some run2
       ∧ same_outcome run1 run2).
Proof.
  split.
  - destruct (proj1 category_derivation_deterministic_pure 3 9
                {[ 1%positive := OList [VInt 40; VInt 60] ]}
                (<[ 4%positive := OList [VInt 40; VInt 60] ]>
                   {[ 1%positive := OList [VStr "x"] ]})
                1%positive 4%positive [VInt 40; VInt 60])
      as (run1 & run2 & H1 & H2 & Hsame & _); [reflexivity | reflexivity | simpl; lia..|].
    by exists run1, run2.
  - destruct (proj2 category_derivation_deterministic_pure 2 5
                {[ 1%positive := OFrame {[ "visits.submitter_id" := [VStr "V Week 0"] ]} ]}
                {[ 2%positive := OFrame (<[ "sex" := [VStr "Male"] ]>
                                           {[ "visits.submitter_id" := [VStr "V Week 0"] ]}) ]}
                1%positive 2%positive
                {[ "visits.submitter_id" := [VStr "V Week 0"] ]}
                (<[ "sex" := [VStr "Male"] ]> {[ "visits.submitter_id" := [VStr "V Week 0"] ]})
                [VStr "V Week 0"])
      as (run1 & run2 & H1 & H2 & Hsame & _);
      [reflexivity | reflexivity | reflexivity | reflexivity| simpl; lia..|].
    by exists run1, run2.
Defined.

(** ** Counting with filters and sums *)

Section counting.
Context {A : Type}.
Implicit Types (P Q R : A → Prop) (l : list A).

Lemma length_filter_split P Q R
    `{∀ a, Decision (P a)} `{∀ a, Decision (Q a)} `{∀ a, Decision (R a)} l :
  (∀ a, R a ↔ P a ∨ Q a) → (∀ a, P a → Q a → False) →
  length (filter R l) = length (filter P l) + length (filter Q l).
Proof.
  intros HR Hdisj. induction l as [|a l IH]; [done|].
  rewrite !filter_cons.
  destruct (decide (R a)) as [Hr|Hr], (decide (P a)) as [Hp|Hp],
    (decide (Q a)) as [Hq|Hq]; simpl; rewrite ?IH; try lia.
  - destruct (Hdisj a Hp Hq).
  - apply HR in Hr as [?|?]; done.
  - destruct Hr. apply HR. by left.
  - destruct Hr. apply HR. by left.
  - destruct Hr. apply HR. by right.
Qed.

Lemma length_filter_none R `{∀ a, Decision (R a)} l :
  (∀ a, ¬ R a) → length (filter R l) = 0.
Proof.
  intros HR. induction l as [|a l IH]; [done|].
  rewrite filter_cons. by destruct (decide (R a)) as [?%HR|].
Qed.

Lemma length_filter_all R `{∀ a, Decision (R a)} l :
  (∀ a, a ∈ l → R a) → length (filter R l) = length l.
Proof.
  induction l as [|a l IH]; intros HR; [done|].
  rewrite filter_cons_True by (apply HR; by left).
  simpl. rewrite IH; [done|]. intros b Hb. apply HR. by right.
Qed.

Lemma length_filter_ext P Q `{∀ a, Decision (P a)} `{∀ a, Decision (Q a)} l :
  (∀ a, P a ↔ Q a) → length (filter P l) = length (filter Q l).
Proof.
  intros HPQ. induction l as [|a l IH]; [done|].
  rewrite !filter_cons.
  destruct (decide (P a)) as [Hp|Hp], (decide (Q a)) as [Hq|Hq]; simpl;
    rewrite ?IH; try done.
  - destruct Hq. by apply HPQ.
  - destruct Hp. by apply HPQ.
Qed.

(** Counting the elements of [l] key by key, over keys listed once each,
    counts the elements whose key is listed. *)
Lemma sum_length_filter_key {K : Type} `{EqDecision K} (k : A → K) P
    `{∀ a, Decision (P a)} (keys : list K) l :
  NoDup keys →
  sum_list ((λ c, length (filter (λ a, P a ∧ k a = c) l)) <$> keys)
  = length (filter (λ a, P a ∧ k a ∈ keys) l).
Proof.
  induction 1 as [|c keys Hc Hnd IH]; csimpl.
  - rewrite length_filter_none; [done|]. intros a [_ Ha]. by apply elem_of_nil in Ha.
  - rewrite IH. symmetry. apply length_filter_split.
    + intros a. rewrite elem_of_cons. tauto.
    + intros a [_ <-] [_ Ha]. done.
Qed.

End counting.

Lemma sum_list_fmap_add {A : Type} (f g : A → nat) (l : list A) :
  sum_list ((λ a, f a + g a) <$> l) = sum_list (f <$> l) + sum_list (g <$> l).
Proof. induction l as [|a l IH]; csimpl; [done|]. rewrite IH. lia. Qed.

Lemma sum_list_app (l k : list nat) : sum_list (l ++ k) = sum_list l + sum_list k.
Proof. induction l as [|x l IH]; csimpl; [done|]. rewrite IH. lia. Qed.

Lemma sum_list_concat (m : list (list nat)) :
  sum_list (concat m) = sum_list (sum_list <$> m).
Proof. induction m as [|r m IH]; csimpl; [done|]. by rewrite sum_list_app, IH. Qed.

Lemma sum_seq_lookup (r : list nat) :
  sum_list ((λ j, default 0 (r !! j)) <$> seq 0 (length r)) = sum_list r.
Proof.
  induction r as [|x r IH]; csimpl; [done|].
  rewrite <- fmap_S_seq, <- list_fmap_compose. by rewrite <- IH.
Qed.

(** In a rectangular table the column sums add up to what the row sums add
    up to. *)
Lemma col_sums_row_sums (w : nat) (m : list (list nat)) :
  Forall (λ r, length r = w) m →
  sum_list ((λ j, sum_list ((λ r, default 0 (r !! j)) <$> m)) <$> seq 0 w)
  = sum_list (sum_list <$> m).
Proof.
  induction 1 as [|r m Hr Hm IH]; csimpl.
  - by rewrite sum_list_fmap_const, Nat.mul_0_r.
  - rewrite sum_list_fmap_add, IH. f_equal. subst w. apply sum_seq_lookup.
Qed.

(** ** The cross-tabulation *)

Lemma crosstab_sum_rows (rl cl : list value) (rows : list (value * value)) :
  NoDup rl → NoDup cl →
  sum_list ((λ r, sum_list ((λ c, count_rows r c rows) <$> cl)) <$> rl)
  = length (filter (λ p, p.1 ∈ rl ∧ p.2 ∈ cl) rows).
Proof.
  intros Hrl Hcl. unfold count_rows.
  rewrite (list_fmap_ext _ (λ r, length (filter (λ p, p.2 ∈ cl ∧ p.1 = r) rows))).
  - rewrite (sum_length_filter_key fst (λ p, p.2 ∈ cl)) by done.
    apply length_filter_ext. tauto.
  - intros _ r _.
    rewrite (sum_length_filter_key snd (λ p : value * value, p.1 = r)) by done.
    apply length_filter_ext. tauto.
Qed.

(** C7. The cells of the cross-tabulation of two columns add up to the
    number of rows in which both columns have a value; so do its row
    margins and its column margins; and that number is the row count of
    the table less the rows with a missing value. *)
Theorem crosstab_margin_invariant (index columns : list value) :
  let t := crosstab index columns in
  let rows := zip index columns in
  let n := length (filter (λ p, p.1 ≠ VNaN ∧ p.2 ≠ VNaN) rows) in
  sum_list (concat (cells t)) = n
  ∧ sum_list (row_margins t) = n
  ∧ sum_list (col_margins t) = n
  ∧ n = length rows - length (filter (λ p, p.1 = VNaN ∨ p.2 = VNaN) rows).
Proof.
  intros t rows n.
  assert (sum_list (row_margins t) = n) as Hrows.
  { unfold row_margins, t, crosstab. cbn [cells].
    rewrite <- list_fmap_compose. unfold compose.
    rewrite crosstab_sum_rows by apply NoDup_remove_dups.
    fold rows. fold (observed index columns).
    apply length_filter_all. intros p Hp.
    rewrite !elem_of_remove_dups. split.
    - apply list_elem_of_fmap. by exists p.
    - apply list_elem_of_fmap. by exists p. }
  split_and!.
  - by rewrite sum_list_concat.
  - done.
  - rewrite <- Hrows. unfold col_margins, row_margins. apply col_sums_row_sums.
    unfold t, crosstab. cbn [cells col_labels].
    apply Forall_fmap, Forall_forall. intros r _. simpl. by rewrite length_fmap.
  - subst n.
    pose proof (length_filter_split (λ p : value * value, p.1 ≠ VNaN ∧ p.2 ≠ VNaN)
                  (λ p, p.1 = VNaN ∨ p.2 = VNaN) (λ _, True) rows) as Hsplit.
    rewrite (length_filter_all (λ _, True)) in Hsplit by done.
    rewrite Hsplit; [lia| |].
    + intros [a b]. simpl. destruct (decide (a = VNaN)), (decide (b = VNaN)); tauto.
    + intros p [? ?] [?|?]; done.
Qed.

(** ** The outer join *)

(** Every left row is, with some right part or none, a row of the join. *)
Lemma merge_outer_left (left right : list row) (left_on right_on : string) (l : row) :
  l ∈ left → ∃ j, j ∈ merge_outer left right left_on right_on ∧ j.1 = Some l.
Proof.
  intros Hl. unfold merge_outer.
  destruct (filter (λ r, cell r right_on = cell l left_on) right) as [|r ms] eqn:Hms.
  - exists (Some l, None). split; [|done].
    apply elem_of_app. left. apply list_elem_of_bind. exists l.
    split; [|done]. rewrite Hms. by left.
  - exists (Some l, Some r). split; [|done].
    apply elem_of_app. left. apply list_elem_of_bind. exists l.
    split; [|done]. rewrite Hms. by left.
Qed.

(** Every right row is, with some left part or none, a row of the join. *)
Lemma merge_outer_right (left right : list row) (left_on right_on : string) (r : row) :
  r ∈ right → ∃ j, j ∈ merge_outer left right left_on right_on ∧ j.2 = Some r.
Proof.
  intros Hr. unfold merge_outer.
  destruct (decide (Forall (λ l, cell l left_on ≠ cell r right_on) left)) as [Hno|Hsome].
  - exists (None, Some r). split; [|done].
    apply elem_of_app. right. apply list_elem_of_fmap. exists r.
    split; [done|]. by apply list_elem_of_filter.
  - apply not_Forall_Exists in Hsome; [|apply _].
    apply Exists_exists in Hsome as (l & Hl & Heq). apply dec_stable in Heq.
    exists (Some l, Some r). split; [|done].
    apply elem_of_app. left. apply list_elem_of_bind. exists l. split; [|done].
    assert (r ∈ filter (λ r0, cell r0 right_on = cell l left_on) right) as Hin
      by (by apply list_elem_of_filter).
    destruct (filter (λ r0, cell r0 right_on = cell l left_on) right) as [|r0 ms].
    + by apply elem_of_nil in Hin.
    + apply list_elem_of_fmap. by exists r.
Qed.

(** C8. Every identifier of the left key column is in the left key column of
    the outer join, and every identifier of the right key column is in its
    right key column: an identifier present in either input table appears
    in the joined table. *)
Theorem merge_outer_complete (left right : list row) (left_on right_on : string)
    (id : value) :
  (id ∈ (λ l, cell l left_on) <$> left →
   id ∈ (λ j, key_of j.1 left_on) <$> merge_outer left right left_on right_on)
  ∧ (id ∈ (λ r, cell r right_on) <$> right →
     id ∈ (λ j, key_of j.2 right_on) <$> merge_outer left right left_on right_on).
Proof.
  split.
  - intros (l & -> & Hl)%list_elem_of_fmap.
    destruct (merge_outer_left left right left_on right_on l Hl) as (j & Hj & Hj1).
    apply list_elem_of_fmap. exists j. split; [|done]. by rewrite Hj1.
  - intros (r & -> & Hr)%list_elem_of_fmap.
    destruct (merge_outer_right left right left_on right_on r Hr) as (j & Hj & Hj2).
    apply list_elem_of_fmap. exists j. split; [|done]. by rewrite Hj2.
Qed.

Lemma merge_outer_complete_witness :
  VStr "P9" ∈ (λ j, key_of j.1 "participant_id")
                <$> demo_combine_substance
                      [ {[ "participant_id" := VStr "P1" ]}; {[ "participant_id" := VStr "P9" ]} ]
                      [ {[ "submitter_id" := VStr "P1" ]}; {[ "submitter_id" := VStr "P2" ]} ]
  ∧ VStr "P2" ∈ (λ j, key_of j.2 "submitter_id")
                  <$> demo_combine_substance
                        [ {[ "participant_id" := VStr "P1" ]}; {[ "participant_id" := VStr "P9" ]} ]
                        [ {[ "submitter_id" := VStr "P1" ]}; {[ "submitter_id" := VStr "P2" ]} ].
Proof.
  split.
  - apply (proj1 (merge_outer_complete _ _ "participant_id" "submitter_id" (VStr "P9"))).
    apply list_elem_of_fmap. exists {[ "participant_id" := VStr "P9" ]}.
    split; [reflexivity|]. right. by left.
  - apply (proj2 (merge_outer_complete _ _ "participant_id" "submitter_id" (VStr "P2"))).
    apply list_elem_of_fmap. exists {[ "submitter_id" := VStr "P2" ]}.
    split; [reflexivity|]. right. by left.
Defined.

(** * Further properties of the notebook's functions *)

(** ** More on [rstrip] *)

Section more_string_facts.
#[local] Arguments String.append !_ _ / : simpl nomatch.

Lemma append_empty_r (s : string) : s +:+ EmptyString = s.
Proof. induction s as [|a s IH]; simpl; [done|]. by rewrite IH. Qed.

Lemma append_assoc (s t u : string) : (s +:+ t) +:+ u = s +:+ (t +:+ u).
Proof. induction s as [|a s IH]; simpl; [done|]. by rewrite IH. Qed.

Lemma substring_append_l (r t : string) :
  substring 0 (String.length r) (r +:+ t) = r.
Proof.
  induction r as [|a r IH]; simpl; [by destruct t|]. by rewrite IH.
Qed.

Lemma get_last_snoc (p : string) (c : ascii) :
  String.get (String.length p) (p +:+ String c EmptyString) = Some c.
Proof. induction p as [|a p IH]; simpl; done. Qed.

Lemma string_snoc_inv (s : string) :
  s = EmptyString ∨ ∃ p c, s = p +:+ String c EmptyString.
Proof.
  induction s as [|a s IH]; [by left|]. right.
  destruct IH as [->|(p & c & ->)].
  - by exists EmptyString, a.
  - by exists (String a p), c.
Qed.

Lemma char_in_self (c : ascii) (p q : string) : char_in c (p +:+ String c q) = true.
Proof.
  induction p as [|a p IH]; simpl.
  - by rewrite Ascii.eqb_refl.
  - rewrite IH. by destruct (Ascii.eqb c a).
Qed.

Lemma all_in_append (s t chars : string) :
  all_in (s +:+ t) chars = all_in s chars && all_in t chars.
Proof. induction s as [|a s IH]; simpl; [done|]. by rewrite IH, andb_assoc. Qed.

Lemma all_in_self (chars : string) : all_in chars chars = true.
Proof.
  assert (∀ p q, all_in q (p +:+ q) = true) as H.
  { intros p q. revert p. induction q as [|c q IH]; intros p; simpl; [done|].
    rewrite char_in_self. simpl.
    specialize (IH (p +:+ String c EmptyString)).
    by rewrite append_assoc in IH. }
  apply (H EmptyString).
Qed.

(** The scan passes over a stretch of characters of [chars]. *)
Lemma rstrip_end_skip (s chars : string) (n j : nat) :
  n ≤ j →
  (∀ p, n ≤ p → p < j → ∃ c, String.get p s = Some c ∧ char_in c chars = true) →
  rstrip_end s chars j = rstrip_end s chars n.
Proof.
  induction j as [|j IH]; intros Hn Hrun.
  - by replace n with 0 by lia.
  - destruct (decide (n = S j)) as [->|Hne]; [done|].
    simpl. destruct (Hrun j) as (c & -> & ->); [lia..|].
    apply IH; [lia|]. intros p ? ?. apply Hrun; lia.
Qed.

(** [rstrip] is determined by what it promises: a cut of [s] before a tail
    of characters of [chars], such that the part kept does not end with one. *)
Lemma rstrip_unique (s chars r t : string) :
  s = r +:+ t → all_in t chars = true → no_trailing r chars →
  rstrip s chars = r.
Proof.
  intros -> Ht Hr. unfold rstrip. rewrite length_append.
  rewrite (rstrip_end_skip _ _ (String.length r)); [|lia|].
  - replace (rstrip_end (r +:+ t) chars (String.length r)) with (String.length r);
      [apply substring_append_l|].
    destruct (string_snoc_inv r) as [->|(p & c & ->)]; [done|].
    rewrite length_append, Nat.add_1_r. simpl.
    rewrite <- append_correct1 by (rewrite length_append; simpl; lia).
    rewrite get_last_snoc. by rewrite (Hr p c).
  - intros p Hp1 Hp2.
    destruct (get_is_Some t (p - String.length r)) as [c Hc]; [lia|].
    exists c. split.
    + rewrite <- Hc. rewrite (append_correct2 r t).
      f_equal. lia.
    + rewrite all_in_get in Ht. by eapply Ht.
Qed.

Lemma rstrip_no_trailing (s chars : string) : no_trailing (rstrip s chars) chars.
Proof. intros p c Hp. by eapply rstrip_last. Qed.

Lemma rstrip_fixed_iff (s chars : string) :
  rstrip s chars = s ↔ no_trailing s chars.
Proof.
  split.
  - intros <-. apply rstrip_no_trailing.
  - intros Hs. apply rstrip_unique with EmptyString; [|done..].
    by rewrite append_empty_r.
Qed.

Lemma rstrip_append_chars (s chars : string) :
  rstrip (s +:+ chars) chars = rstrip s chars.
Proof.
  destruct (rstrip_spec s chars) as (t & Hs & Ht & _).
  apply rstrip_unique with (t +:+ chars).
  - rewrite <- append_assoc. by rewrite <- Hs.
  - by rewrite all_in_append, Ht, all_in_self.
  - apply rstrip_no_trailing.
Qed.

Lemma rstrip_idemp (s chars : string) :
  rstrip (rstrip s chars) chars = rstrip s chars.
Proof. apply rstrip_fixed_iff, rstrip_no_trailing. Qed.

End more_string_facts.

Lemma fmap_fixed_iff {A : Type} (f : A → A) (l : list A) :
  f <$> l = l ↔ ∀ x, x ∈ l → f x = x.
Proof.
  induction l as [|a l IH]; csimpl.
  - split; [intros _ x Hx; by apply elem_of_nil in Hx | done].
  - split.
    + intros [= Ha Hl] x [->|Hx]%elem_of_cons; [done|]. by apply IH.
    + intros H. f_equal; [apply H; by left|]. apply IH. intros x Hx. apply H. by right.
Qed.

Lemma find_participant_strings (mydf : frame) (endstr : string) (col : list string) :
  mydf !! "submitter_id" = Some (VStr <$> col) →
  find_participant mydf endstr = Ok (VStr <$> ((λ s, rstrip s endstr) <$> col)).
Proof.
  intros Hcol. unfold find_participant, getitem. rewrite Hcol. csimpl.
  by rewrite for_in_find_participant.
Qed.

Lemma VStr_fmap_inj (l k : list string) : VStr <$> l = VStr <$> k → l = k.
Proof.
  revert k. induction l as [|a l IH]; intros [|b k] H; csimpl in *; try done.
  injection H as -> H. f_equal. by apply IH.
Qed.

(** ** [find_participant]: when identifiers come out right *)

(** X1. On a key column of strings, [find_participant] returns the column
    unchanged exactly when no key ends with a character of [endstr]. *)
Theorem find_participant_unchanged_iff (mydf : frame) (endstr : string)
    (col : list string) :
  mydf !! "submitter_id" = Some (VStr <$> col) →
  (find_participant mydf endstr = Ok (VStr <$> col)
   ↔ ∀ key, key ∈ col → no_trailing key endstr).
Proof.
  intros Hcol. rewrite (find_participant_strings _ _ _ Hcol). split.
  - intros [= H%VStr_fmap_inj]. intros key Hkey.
    apply rstrip_fixed_iff. by apply (proj1 (fmap_fixed_iff _ _) H).
  - intros H. do 2 f_equal. apply fmap_fixed_iff. intros key Hkey.
    by apply rstrip_fixed_iff, H.
Qed.

Lemma find_participant_unchanged_iff_witness :
  find_participant {[ "submitter_id" := [VStr "P001"; VStr "P002"] ]} "_sc"
  = Ok [VStr "P001"; VStr "P002"].
Proof.
  assert (({[ "submitter_id" := [VStr "P001"; VStr "P002"] ]} : frame) !! "submitter_id"
          = Some (VStr <$> ["P001"; "P002"])) as Hcol by reflexivity.
  apply (proj2 (find_participant_unchanged_iff _ "_sc" _ Hcol)).
  intros key Hkey. apply rstrip_fixed_iff.
  apply elem_of_cons in Hkey as [->|Hkey]; [reflexivity|].
  apply elem_of_cons in Hkey as [->|Hkey]; [reflexivity|].
  by apply elem_of_nil in Hkey.
Defined.

(** X2. When the keys are identifiers followed by [endstr],
    [find_participant] gives back, for each key, the identifier stripped in
    turn of its trailing characters of [endstr]; so it recovers the
    identifiers themselves exactly when none of them ends with a character
    of [endstr]. *)
Theorem find_participant_recovers_iff (mydf : frame) (endstr : string)
    (ids : list string) :
  mydf !! "submitter_id" = Some (VStr <$> ((λ id, id +:+ endstr) <$> ids)) →
  find_participant mydf endstr = Ok (VStr <$> ((λ id, rstrip id endstr) <$> ids))
  ∧ (find_participant mydf endstr = Ok (VStr <$> ids)
     ↔ ∀ id, id ∈ ids → no_trailing id endstr).
Proof.
  intros Hcol. rewrite (find_participant_strings _ _ _ Hcol).
  rewrite <- (list_fmap_compose (λ id, id +:+ endstr) (λ s, rstrip s endstr)).
  rewrite (list_fmap_ext _ (λ id, rstrip id endstr) ids)
    by (intros _ id _; apply rstrip_append_chars).
  split; [done|]. split.
  - intros [= H%VStr_fmap_inj]. intros id Hid.
    apply rstrip_fixed_iff. by apply (proj1 (fmap_fixed_iff _ _) H).
  - intros H. do 2 f_equal. apply fmap_fixed_iff. intros id Hid.
    by apply rstrip_fixed_iff, H.
Qed.

Lemma find_participant_recovers_iff_witness :
  find_participant {[ "submitter_id" := [VStr "P001_pf"; VStr "Pf_pf"] ]} "_pf"
  = Ok [VStr "P001"; VStr "P"].
Proof.
  assert (({[ "submitter_id" := [VStr "P001_pf"; VStr "Pf_pf"] ]} : frame) !! "submitter_id"
          = Some (VStr <$> ((λ id, id +:+ "_pf") <$> ["P001"; "Pf"]))) as Hcol
    by reflexivity.
  exact (proj1 (find_participant_recovers_iff _ "_pf" _ Hcol)).
Defined.

(** X3. The result of [find_participant] is a fixed point: stripping the
    column it returned, with the same [endstr], returns that column again. *)
Theorem find_participant_fixed_point (mydf : frame) (endstr : string)
    (col : list string) :
  mydf !! "submitter_id" = Some (VStr <$> col) →
  ∃ out, find_participant mydf endstr = Ok out
       ∧ find_participant (<[ "submitter_id" := out ]> mydf) endstr = Ok out.
Proof.
  intros Hcol. eexists. split; [by apply find_participant_strings|].
  rewrite (find_participant_strings _ _ ((λ s, rstrip s endstr) <$> col))
    by apply lookup_insert_eq.
  do 2 f_equal. apply fmap_fixed_iff.
  intros x (s & -> & _)%list_elem_of_fmap. apply rstrip_idemp.
Qed.

Lemma find_participant_fixed_point_witness :
  ∃ out, find_participant {[ "submitter_id" := [VStr "P001s_sc"] ]} "_sc" = Ok out
       ∧ find_participant (<[ "submitter_id" := out ]>
                             {[ "submitter_id" := [VStr "P001s_sc"] ]}) "_sc" = Ok out.
Proof.
  assert (({[ "submitter_id" := [VStr "P001s_sc"] ]} : frame) !! "submitter_id"
          = Some (VStr <$> ["P001s_sc"])) as Hcol by reflexivity.
  exact (find_participant_fixed_point _ "_sc" _ Hcol).
Defined.

(** ** What the two frame functions can raise *)

Lemma strings_or_not (col : list value) :
  (∃ ss : list string, col = VStr <$> ss) ∨ (∃ v, v ∈ col ∧ ∀ s, v ≠ VStr s).
Proof.
  induction col as [|v col IH].
  - left. by exists [].
  - destruct v as [n|s|].
    + right. exists (VInt n). split; [by left|done].
    + destruct IH as [[ss ->]|(w & Hw & Hns)].
      * left. by exists (s :: ss).
      * right. exists w. split; [by right|done].
    + right. exists VNaN. split; [by left|done].
Qed.

Lemma all_strings_fmap (col : list value) :
  all_strings col ↔ ∃ ss : list string, col = VStr <$> ss.
Proof.
  split.
  - intros Hall. destruct (strings_or_not col) as [?|(v & Hv & Hns)]; [done|].
    destruct (Hall v Hv) as [s ->]. by destruct (Hns s).
  - intros [ss ->] v (s & -> & _)%list_elem_of_fmap. by exists s.
Qed.

Lemma for_in_find_participant_raise (endstr : string) (col acc : list value) :
  (∃ v, v ∈ col ∧ ∀ s, v ≠ VStr s) →
  for_in col (fun i participant_id =>
    i_participant ← meth_rstrip i endstr;
    Ok (participant_id ++ [i_participant])) acc
  = Raise AttributeError.
Proof.
  revert acc. induction col as [|x col IH]; intros acc (v & Hin & Hv).
  - by apply elem_of_nil in Hin.
  - csimpl. destruct x as [n|s|]; csimpl; [done| |done].
    apply elem_of_cons in Hin as [->|Hin]; [by destruct (Hv s)|].
    apply IH; eauto.
Qed.

(** X4. [find_participant] raises [KeyError] exactly when the frame has no
    "submitter_id" column, raises [AttributeError] exactly when that column
    holds a cell that is not a string, and in every other case returns a
    list as long as the column. *)
Theorem find_participant_outcome (mydf : frame) (endstr : string) :
  (find_participant mydf endstr = Raise KeyError ↔ mydf !! "submitter_id" = None)
  ∧ (find_participant mydf endstr = Raise AttributeError
     ↔ ∃ col, mydf !! "submitter_id" = Some col ∧ ¬ all_strings col)
  ∧ ((∃ out, find_participant mydf endstr = Ok out)
     ↔ ∃ col, mydf !! "submitter_id" = Some col ∧ all_strings col)
  ∧ (∀ out col, find_participant mydf endstr = Ok out →
       mydf !! "submitter_id" = Some col → length out = length col).
Proof.
  destruct (mydf !! "submitter_id") as [col|] eqn:Hcol.
  - destruct (strings_or_not col) as [[ss ->]|Hbad].
    + rewrite (find_participant_strings _ _ _ Hcol).
      assert (all_strings (VStr <$> ss)) as Hall by (apply all_strings_fmap; eauto).
      split_and!.
      * split; done.
      * split; [done|]. intros (c & [= <-] & Hn). done.
      * split; [intros _; by exists (VStr <$> ss) | by eexists].
      * intros out c [= <-] [= <-]. by rewrite !length_fmap.
    + assert (find_participant mydf endstr = Raise AttributeError) as ->.
      { unfold find_participant, getitem. rewrite Hcol. csimpl.
        by apply for_in_find_participant_raise. }
      assert (¬ all_strings col) as Hnot.
      { intros Hall. destruct Hbad as (v & Hv & Hns).
        destruct (Hall v Hv) as [s ->]. by destruct (Hns s). }
      split_and!.
      * split; done.
      * split; [intros _; by exists col | done].
      * split; [by intros [out ?] | intros (c & [= <-] & ?); done].
      * intros out c ?. done.
  - assert (find_participant mydf endstr = Raise KeyError) as ->.
    { unfold find_participant, getitem. by rewrite Hcol. }
    split_and!.
    + done.
    + split; [done | by intros (c & ? & ?)].
    + split; [by intros [out ?] | by intros (c & ? & ?)].
    + intros out c ?. done.
Qed.

(** X5. [find_timepoint] raises [KeyError] exactly when the frame has no
    "visits.submitter_id" column, raises [AttributeError] exactly when that
    column holds a cell that is not a string, and in every other case
    returns a list as long as the column. *)
Theorem find_timepoint_outcome (mydf : frame) :
  (find_timepoint mydf = Raise KeyError ↔ mydf !! "visits.submitter_id" = None)
  ∧ (find_timepoint mydf = Raise AttributeError
     ↔ ∃ col, mydf !! "visits.submitter_id" = Some col ∧ ¬ all_strings col)
  ∧ ((∃ out, find_timepoint mydf = Ok out)
     ↔ ∃ col, mydf !! "visits.submitter_id" = Some col ∧ all_strings col)
  ∧ (∀ out col, find_timepoint mydf = Ok out →
       mydf !! "visits.submitter_id" = Some col → length out = length col).
Proof.
  destruct (mydf !! "visits.submitter_id") as [col|] eqn:Hcol.
  - destruct (strings_or_not col) as [[ss ->]|Hbad].
    + assert (find_timepoint mydf
              = Ok ((λ s, VStr (if endswith s "Week 0" then "Week 0" else "Week 12")) <$> ss))
        as ->.
      { unfold find_timepoint, getitem. rewrite Hcol. csimpl.
        by rewrite for_in_find_timepoint. }
      assert (all_strings (VStr <$> ss)) as Hall by (apply all_strings_fmap; eauto).
      split_and!.
      * split; done.
      * split; [done|]. intros (c & [= <-] & Hn). done.
      * split; [intros _; by exists (VStr <$> ss) | by eexists].
      * intros out c [= <-] [= <-]. by rewrite !length_fmap.
    + assert (find_timepoint mydf = Raise AttributeError) as ->.
      { unfold find_timepoint, getitem. rewrite Hcol. csimpl.
        by apply for_in_find_timepoint_raise. }
      assert (¬ all_strings col) as Hnot.
      { intros Hall. destruct Hbad as (v & Hv & Hns).
        destruct (Hall v Hv) as [s ->]. by destruct (Hns s). }
      split_and!.
      * split; done.
      * split; [intros _; by exists col | done].
      * split; [by intros [out ?] | intros (c & [= <-] & ?); done].
      * intros out c ?. done.
  - assert (find_timepoint mydf = Raise KeyError) as ->.
    { unfold find_timepoint, getitem. by rewrite Hcol. }
    split_and!.
    + done.
    + split; [done | by intros (c & ? & ?)].
    + split; [by intros [out ?] | by intros (c & ? & ?)].
    + intros out c ?. done.
Qed.

(** X6. On a visit-label column of strings the labels [find_timepoint]
    returns are "Week 0" where the visit label ends with "Week 0" and
    "Week 12" elsewhere, so they all lie in these two; and deriving again
    from the returned column returns it unchanged. *)
Theorem find_timepoint_two_labels (mydf : frame) (col : list string) :
  mydf !! "visits.submitter_id" = Some (VStr <$> col) →
  ∃ out, find_timepoint mydf = Ok out
       ∧ (∀ i s, col !! i = Some s →
            ((∃ p, s = p +:+ "Week 0") → out !! i = Some (VStr "Week 0"))
            ∧ ((¬ ∃ p, s = p +:+ "Week 0") → out !! i = Some (VStr "Week 12")))
       ∧ (∀ v, v ∈ out → v = VStr "Week 0" ∨ v = VStr "Week 12")
       ∧ find_timepoint (<[ "visits.submitter_id" := out ]> mydf) = Ok out.
Proof.
  intros Hcol.
  set (out := (λ s, VStr (if endswith s "Week 0" then "Week 0" else "Week 12")) <$> col).
  assert (∀ v, v ∈ out → v = VStr "Week 0" ∨ v = VStr "Week 12") as Hlab.
  { intros v (s & -> & _)%list_elem_of_fmap. destruct (endswith s "Week 0"); eauto. }
  exists out. split_and!.
  - unfold find_timepoint, getitem. rewrite Hcol. csimpl.
    by rewrite for_in_find_timepoint.
  - intros i s Hi. unfold out. rewrite list_lookup_fmap, Hi. csimpl.
    destruct (endswith s "Week 0") eqn:Hend; split; try done.
    + intros Hnot. by apply endswith_spec in Hend.
    + intros Hyes%endswith_spec. congruence.
  - done.
  - unfold find_timepoint, getitem. rewrite lookup_insert_eq. csimpl.
    by rewrite for_in_find_timepoint_labels.
Qed.

Lemma find_timepoint_two_labels_witness :
  ∃ out, find_timepoint {[ "visits.submitter_id" := [VStr "P1 Week 0"; VStr "P1 Week 6"] ]}
         = Ok out
       ∧ (∀ v, v ∈ out → v = VStr "Week 0" ∨ v = VStr "Week 12").
Proof.
  assert (({[ "visits.submitter_id" := [VStr "P1 Week 0"; VStr "P1 Week 6"] ]} : frame)
            !! "visits.submitter_id" = Some (VStr <$> ["P1 Week 0"; "P1 Week 6"]))
    as Hcol by reflexivity.
  destruct (find_timepoint_two_labels _ _ Hcol) as (out & Hrun & _ & Hlab & _).
  by exists out.
Defined.

(** ** [age_group] on columns with missing ages or text *)

(** Once [min] stands at [nan] it stays there: nothing compares smaller. *)
Lemma min_from_nan (l : list value) :
  all_numeric l → min_from VNaN l = Ok VNaN.
Proof.
  induction l as [|x l IH]; intros Hnum; csimpl; [done|].
  destruct (Hnum x) as [->|[n ->]]; [by left| |]; csimpl;
    apply IH; intros v Hv; apply Hnum; by right.
Qed.

(** From an integer, [min] ends at the least integer met; missing cells are
    passed over. *)
Lemma min_from_numeric (cur : Z) (l : list value) :
  all_numeric l →
  ∃ m, min_from (VInt cur) l = Ok (VInt m)
     ∧ (m = cur ∨ VInt m ∈ l)
     ∧ (m ≤ cur)%Z
     ∧ ∀ a, VInt a ∈ l → (m ≤ a)%Z.
Proof.
  revert cur. induction l as [|x l IH]; intros cur Hnum; csimpl.
  - exists cur. split_and!; [done|by left|lia|]. intros a Ha. by apply elem_of_nil in Ha.
  - assert (all_numeric l) as Hl by (intros v Hv; apply Hnum; by right).
    destruct (Hnum x) as [->|[n ->]]; [by left| |]; csimpl.
    + destruct (IH cur Hl) as (m & -> & Hm & Hle & Hmin). exists m.
      split_and!; [done| |done|].
      * destruct Hm as [->|Hm]; [by left|right; by right].
      * intros a [[=]|Ha]%elem_of_cons. by apply Hmin.
    + destruct (Z.ltb_spec n cur) as [Hlt|Hge].
      * destruct (IH n Hl) as (m & -> & Hm & Hle & Hmin). exists m.
        split_and!; [done| |lia|].
        -- right. destruct Hm as [->|Hm]; [by left|by right].
        -- intros a [[= ->]|Ha]%elem_of_cons; [done|]. by apply Hmin.
      * destruct (IH cur Hl) as (m & -> & Hm & Hle & Hmin). exists m.
        split_and!; [done| |done|].
        -- destruct Hm as [->|Hm]; [by left|right; by right].
        -- intros a [[= ->]|Ha]%elem_of_cons; [lia|]. by apply Hmin.
Qed.

(** The loop of [age_group] on a numeric column, whatever the two labels. *)
Lemma for_in_age_group_numeric (l1 l2 : string) (l : list value) (acc : list value) :
  all_numeric l →
  for_in l (fun i grouplist =>
    b ← py_le i (VInt 55);
    if b : bool then Ok (grouplist ++ [VStr l1]) else Ok (grouplist ++ [VStr l2])) acc
  = Ok (acc ++ ((λ v, match v with
                      | VInt a => VStr (if (a <=? 55)%Z then l1 else l2)
                      | _ => VStr l2
                      end) <$> l)).
Proof.
  revert acc. induction l as [|x l IH]; intros acc Hnum; csimpl.
  - by rewrite app_nil_r.
  - assert (all_numeric l) as Hl by (intros v Hv; apply Hnum; by right).
    destruct (Hnum x) as [->|[n ->]]; [by left| |]; csimpl.
    + by rewrite IH, <- app_assoc.
    + destruct (n <=? 55)%Z; csimpl; by rewrite IH, <- app_assoc.
Qed.

(** X7. On a non-empty column of integers and missing ages [age_group]
    raises nothing and returns a list of the same length in which a missing
    age is labelled ">55 yr". When the first age is missing, every age
    [<= 55] is labelled "nan-55 yr"; when the first age is an integer, the
    low label is made from the least integer of the column. *)
Theorem age_group_missing_ages (agelist : list value) :
  agelist ≠ [] → all_numeric agelist →
  ∃ out low,
    age_group agelist = Ok out
    ∧ length out = length agelist
    ∧ (∀ i, agelist !! i = Some VNaN → out !! i = Some (VStr ">55 yr"))
    ∧ (∀ i a, agelist !! i = Some (VInt a) →
         out !! i = Some (VStr (if decide (a ≤ 55)%Z then low +:+ "-55 yr" else ">55 yr")))
    ∧ (head agelist = Some VNaN → low = "nan")
    ∧ (∀ n, head agelist = Some (VInt n) →
         ∃ m, low = py_str (VInt m) ∧ VInt m ∈ agelist
            ∧ ∀ a, VInt a ∈ agelist → (m ≤ a)%Z).
Proof.
  intros Hne Hnum.
  assert (∃ min_age, py_min agelist = Ok min_age
            ∧ (head agelist = Some VNaN → min_age = VNaN)
            ∧ (∀ n, head agelist = Some (VInt n) →
                 ∃ m, min_age = VInt m ∧ VInt m ∈ agelist
                    ∧ ∀ a, VInt a ∈ agelist → (m ≤ a)%Z)) as (min_age & Hmin & Hnan & Hint).
  { destruct agelist as [|x l]; [done|].
    assert (all_numeric l) as Hl by (intros v Hv; apply Hnum; by right).
    destruct (Hnum x) as [->|[n ->]]; [by left| |]; simpl.
    - exists VNaN. by rewrite min_from_nan.
    - destruct (min_from_numeric n l Hl) as (m & -> & Hm & Hle & Hleast).
      exists (VInt m). split_and!; [done..|].
      intros ? [= <-]. exists m. split_and!; [done| |].
      + destruct Hm as [->|Hm]; [by left|by right].
      + intros a [[= ->]|Ha]%elem_of_cons; [done|]. by apply Hleast. }
  exists ((λ v, match v with
                | VInt a => VStr (if (a <=? 55)%Z
                                  then py_str min_age +:+ "-55 yr" else ">55 yr")
                | _ => VStr ">55 yr"
                end) <$> agelist), (py_str min_age).
  split_and!.
  - unfold age_group. rewrite Hmin. csimpl. by rewrite for_in_age_group_numeric.
  - by rewrite length_fmap.
  - intros i Hi. by rewrite list_lookup_fmap, Hi.
  - intros i a Hi. rewrite list_lookup_fmap, Hi. csimpl.
    destruct (Z.leb_spec a 55); case_decide; (done || lia).
  - intros Hhd. by rewrite Hnan.
  - intros n Hhd. destruct (Hint n Hhd) as (m & -> & Hm). by exists m.
Qed.

Lemma age_group_missing_ages_witness :
  ∃ out low, age_group [VNaN; VInt 40; VInt 70] = Ok out
           ∧ out !! 0 = Some (VStr ">55 yr")
           ∧ out !! 1 = Some (VStr (low +:+ "-55 yr"))
           ∧ low = "nan".
Proof.
  assert ([VNaN; VInt 40; VInt 70] ≠ []) as Hne by done.
  assert (all_numeric [VNaN; VInt 40; VInt 70]) as Hnum.
  { intros v Hv. apply elem_of_cons in Hv as [->|Hv]; [by left|].
    apply elem_of_cons in Hv as [->|Hv]; [right; by eexists|].
    apply elem_of_cons in Hv as [->|Hv]; [right; by eexists|].
    by apply elem_of_nil in Hv. }
  destruct (age_group_missing_ages _ Hne Hnum) as (out & low & Hrun & _ & H0 & H1 & Hlow & _).
  exists out, low. split_and!; [done| | |].
  - by apply H0.
  - by apply (H1 1 40%Z).
  - by apply Hlow.
Defined.

(** The comparisons of [min] fail with [TypeError] only. *)
Lemma min_from_raise (cur : value) (l : list value) (e : exn) :
  min_from cur l = Raise e → e = TypeError.
Proof.
  revert cur. induction l as [|x l IH]; intros cur; csimpl; [done|].
  destruct (py_lt x cur) as [b|e'] eqn:Hlt; csimpl.
  - apply IH.
  - intros [= <-]. destruct x, cur; simpl in Hlt; congruence.
Qed.

(** A text cell stops the loop of [age_group] with [TypeError]. *)
Lemma for_in_age_group_text (l1 l2 : string) (l : list value) (acc : list value) :
  (∃ s, VStr s ∈ l) →
  for_in l (fun i grouplist =>
    b ← py_le i (VInt 55);
    if b : bool then Ok (grouplist ++ [VStr l1]) else Ok (grouplist ++ [VStr l2])) acc
  = Raise TypeError.
Proof.
  revert acc. induction l as [|x l IH]; intros acc (s & Hs).
  - by apply elem_of_nil in Hs.
  - csimpl. destruct x as [n|t|]; csimpl; [|done|].
    + apply elem_of_cons in Hs as [[=]|Hs].
      destruct (n <=? 55)%Z; csimpl; apply IH; eauto.
    + apply elem_of_cons in Hs as [[=]|Hs]. apply IH; eauto.
Qed.

(** X8. A column holding a text cell makes [age_group] raise [TypeError],
    whatever the other cells are: either [min] compares the text with a
    number, or the loop compares it with 55. *)
Theorem age_group_text_raises (agelist : list value) (s : string) :
  VStr s ∈ agelist → age_group agelist = Raise TypeError.
Proof.
  intros Hs. unfold age_group.
  destruct (py_min agelist) as [min_age|e] eqn:Hmin; csimpl.
  - apply for_in_age_group_text. eauto.
  - f_equal. destruct agelist as [|x l]; [by apply elem_of_nil in Hs|].
    by apply min_from_raise in Hmin.
Qed.

Lemma age_group_text_raises_witness :
  age_group [VInt 40; VStr "unknown"; VInt 70] = Raise TypeError
  ∧ age_group [VStr "40"; VStr "70"] = Raise TypeError.
Proof.
  split.
  - apply (age_group_text_raises _ "unknown"). right. by left.
  - apply (age_group_text_raises _ "40"). by left.
Defined.

(** X9. On integer ages the labels do not depend on the order of the rows:
    one labelling of ages serves a column and every rearrangement of it. *)
Theorem age_group_order_independent (ages ages' : list Z) :
  ages ≠ [] → ages ≡ₚ ages' →
  ∃ label : Z → value,
    age_group (VInt <$> ages) = Ok (label <$> ages)
    ∧ age_group (VInt <$> ages') = Ok (label <$> ages').
Proof.
  intros Hne Hperm.
  assert (ages' ≠ []) as Hne'.
  { intros ->. by apply Permutation_nil_r in Hperm. }
  destruct (py_min_ints ages Hne) as (m & Hmin & Hin & Hle).
  destruct (py_min_ints ages' Hne') as (m' & Hmin' & Hin' & Hle').
  assert (m = m') as <-.
  { assert (m ≤ m')%Z by (apply Hle; by rewrite Hperm).
    assert (m' ≤ m)%Z by (apply Hle'; by rewrite <- Hperm). lia. }
  exists (λ a, VStr (if (a <=? 55)%Z then py_str (VInt m) +:+ "-55 yr" else ">55 yr")).
  unfold age_group. rewrite Hmin, Hmin'. csimpl.
  by rewrite !for_in_age_group.
Qed.

Lemma age_group_order_independent_witness :
  ∃ label : Z → value,
    age_group (VInt <$> [60; 31; 50]%Z) = Ok (label <$> [60; 31; 50]%Z)
    ∧ age_group (VInt <$> [50; 60; 31]%Z) = Ok (label <$> [50; 60; 31]%Z).
Proof.
  apply age_group_order_independent; [done|].
  apply (Permutation_app_comm [60; 31]%Z [50%Z]).
Defined.

(** ** The store-level functions: [find_participant], and what is returned *)

(** X10. [find_participant] is deterministic and leaves its input alone.
    Two runs with the same [endstr], in any two stores, on frames with equal
    "submitter_id" columns both finish, with the same exception or with
    lists of equal items; and after each run every object that was in its
    store, the frame among them, is unchanged. *)
Theorem find_participant_deterministic_pure
    (fuel1 fuel2 : nat) (h1 h2 : heap) (mydf1 mydf2 : loc)
    (columns1 columns2 : gmap string (list value)) (col : list value)
    (endstr : string) :
  h1 !! mydf1 = Some (OFrame columns1) →
  h2 !! mydf2 = Some (OFrame columns2) →
  columns1 !! "submitter_id" = Some col →
  columns2 !! "submitter_id" = Some col →
  length col < fuel1 → length col < fuel2 →
  ∃ run1 run2,
    find_participant_st fuel1 mydf1 endstr h1 = Some run1
    ∧ find_participant_st fuel2 mydf2 endstr h2 = Some run2
    ∧ same_outcome run1 run2
    ∧ preserved h1 run1.2 ∧ preserved h2 run2.2.
Proof.
  intros Hdf1 Hdf2 Hcol1 Hcol2 Hf1 Hf2.
  destruct (find_participant_st_run fuel1 h1 mydf1 columns1 endstr Hdf1)
    as (run1 & Hrun1 & Hc1 & Hp1); [intros c Hc; by simplify_eq|].
  destruct (find_participant_st_run fuel2 h2 mydf2 columns2 endstr Hdf2)
    as (run2 & Hrun2 & Hc2 & Hp2); [intros c Hc; by simplify_eq|].
  exists run1, run2. split_and!; [done..| |done|done].
  apply computes_same_outcome with (find_participant columns1 endstr); [done|].
  replace (find_participant columns1 endstr) with (find_participant columns2 endstr);
    [done|].
  unfold find_participant, getitem. by rewrite Hcol1, Hcol2.
Qed.

Lemma find_participant_deterministic_pure_witness :
  ∃ run1 run2,
    find_participant_st 2 1%positive "_sc"
      {[ 1%positive := OFrame {[ "submitter_id" := [VStr "P1_sc"] ]} ]} = Some run1
    ∧ find_participant_st 7 3%positive "_sc"
        {[ 3%positive := OFrame (<[ "OPIOID01" := [VStr "Yes"] ]>
                                   {[ "submitter_id" := [VStr "P1_sc"] ]}) ]} = Some run2
    ∧ same_outcome run1 run2.
Proof.
  destruct (find_participant_deterministic_pure 2 7
              {[ 1%positive := OFrame {[ "submitter_id" := [VStr "P1_sc"] ]} ]}
              {[ 3%positive := OFrame (<[ "OPIOID01" := [VStr "Yes"] ]>
                                         {[ "submitter_id" := [VStr "P1_sc"] ]}) ]}
              1%positive 3%positive
              {[ "submitter_id" := [VStr "P1_sc"] ]}
              (<[ "OPIOID01" := [VStr "Yes"] ]> {[ "submitter_id" := [VStr "P1_sc"] ]})
              [VStr "P1_sc"] "_sc")
    as (run1 & run2 & H1 & H2 & Hsame & _);
    [reflexivity | reflexivity | reflexivity | reflexivity| simpl; lia..|].
  by exists run1, run2.
Defined.

(** A computation that ends by returning [g] returns [g]. *)
Lemma M_bind_returns {A : Type} (m : M A) (g g' : loc) (h h' : heap) :
  (m ≫= λ _, mret g) h = Some (Ok g', h') → g' = g.
Proof.
  unfold mbind, M_bind, mret, M_ret.
  destruct (m h) as [[[a|e] h1]|]; [|done..]. by intros [= -> _].
Qed.

Lemma column_loop_returns (fuel : nat) (h h' : heap) (mydf g : loc) (name : string)
    (body : loc → value → M unit) :
  (result ← new_list [];
   col ← frame_getitem mydf name;
   copy ← new_list col;
   for_list fuel copy 0 (body result) ≫= λ _, mret result) h = Some (Ok g, h') →
  h !! g = None.
Proof.
  destruct (new_list_fresh [] h) as (g0 & Hg0 & Hnew).
  rewrite (M_bind_ok _ _ _ _ _ Hnew).
  unfold mbind at 1, M_bind at 1.
  destruct (frame_getitem mydf name (<[g0:=OList []]> h)) as [[[col|e] h1]|]; [|done..].
  unfold mbind at 1, M_bind at 1.
  destruct (new_list col h1) as [[[copy|e] h2]|]; [|done..].
  by intros ->%M_bind_returns.
Qed.

(** X11. The list a successful run of [age_group], [find_participant] or
    [find_timepoint] returns is a new object: its reference denoted nothing
    in the store before the call, so it is none of the objects the caller
    already holds, the argument included. *)
Theorem returned_list_is_new :
  (∀ fuel agelist h g h',
     age_group_st fuel agelist h = Some (Ok g, h') → h !! g = None ∧ g ≠ agelist)
  ∧ (∀ fuel mydf endstr h g h',
       find_participant_st fuel mydf endstr h = Some (Ok g, h') →
       h !! g = None ∧ g ≠ mydf)
  ∧ (∀ fuel mydf h g h',
       find_timepoint_st fuel mydf h = Some (Ok g, h') → h !! g = None ∧ g ≠ mydf).
Proof.
  split_and!.
  - intros fuel agelist h g h'. unfold age_group_st.
    unfold mbind at 1, M_bind at 1, list_items.
    destruct (h !! agelist) as [[items|?]|] eqn:Hl; [|done..].
    unfold mbind at 1, M_bind at 1, lift.
    destruct (py_min items) as [min_age|e]; [|done].
    destruct (new_list_fresh [] h) as (g0 & Hg0 & Hnew).
    rewrite (M_bind_ok _ _ _ _ _ Hnew).
    intros ->%M_bind_returns. split; [done|congruence].
  - intros fuel mydf endstr h g h' Hrun.
    assert (h !! g = None) as Hg.
    { apply (column_loop_returns fuel h h' mydf g "submitter_id"
               (fun participant_id i =>
                  i_participant ← lift (meth_rstrip i endstr);
                  list_append participant_id i_participant)).
      exact Hrun. }
    split; [done|]. intros ->. revert Hrun. unfold find_participant_st.
    destruct (new_list_fresh [] h) as (g0 & Hg0 & Hnew).
    rewrite (M_bind_ok _ _ _ _ _ Hnew).
    unfold mbind at 1, M_bind at 1, frame_getitem.
    destruct (decide (g0 = mydf)) as [->|Hne].
    + by rewrite lookup_insert_eq.
    + rewrite lookup_insert_ne by done. by rewrite Hg.
  - intros fuel mydf h g h' Hrun.
    assert (h !! g = None) as Hg.
    { apply (column_loop_returns fuel h h' mydf g "visits.submitter_id"
               (fun timepoint i =>
                  b ← lift (meth_endswith i "Week 0");
                  if b : bool
                  then list_append timepoint (VStr "Week 0")
                  else list_append timepoint (VStr "Week 12"))).
      exact Hrun. }
    split; [done|]. intros ->. revert Hrun. unfold find_timepoint_st.
    destruct (new_list_fresh [] h) as (g0 & Hg0 & Hnew).
    rewrite (M_bind_ok _ _ _ _ _ Hnew).
    unfold mbind at 1, M_bind at 1, frame_getitem.
    destruct (decide (g0 = mydf)) as [->|Hne].
    + by rewrite lookup_insert_eq.
    + rewrite lookup_insert_ne by done. by rewrite Hg.
Qed.

Lemma returned_list_is_new_witness :
  ∃ g h', age_group_st 3 1%positive {[ 1%positive := OList [VInt 40; VInt 60] ]}
          = Some (Ok g, h')
        ∧ ({[ 1%positive := OList [VInt 40; VInt 60] ]} : heap) !! g = None
        ∧ g ≠ 1%positive.
Proof.
  assert (∃ g h', age_group_st 3 1%positive {[ 1%positive := OList [VInt 40; VInt 60] ]}
                  = Some (Ok g, h')) as (g & h' & Hrun).
  { do 2 eexists. vm_compute. reflexivity. }
  exists g, h'. split; [done|].
  exact (proj1 returned_list_is_new _ _ _ _ _ Hrun).
Defined.

(** ** The metadata query *)

Lemma assoc_elem_of (k : string) (fields : list (string * json)) :
  k ∈ fields.*1 ↔ is_Some (assoc k fields).
Proof.
  induction fields as [|[k' v] fields IH]; csimpl.
  - split; [by intros ?%elem_of_nil | by intros [? ?]].
  - destruct (String.eqb_spec k k') as [->|Hne].
    + split; [by eexists | by left].
    + rewrite elem_of_cons, IH. split; [by intros [?|?] | by right].
Qed.

Lemma for_each_discovery_objects (subs : list json) (acc : list json) :
  (∀ sub, sub ∈ subs → ∃ fields, sub = JObj fields) →
  for_each subs (fun sub blocks =>
    ks ← dict_keys sub;
    if bool_decide ("gen3_discovery" ∈ ks)
    then block ← subscript sub "gen3_discovery"; Ok (blocks ++ [block])
    else Ok blocks) acc
  = Ok (acc ++ omap block_of subs).
Proof.
  revert acc. induction subs as [|sub subs IH]; intros acc Hobj; csimpl.
  - by rewrite app_nil_r.
  - destruct (Hobj sub) as [fields ->]; [by left|]. csimpl.
    assert (∀ s, s ∈ subs → ∃ fields, s = JObj fields) as Hrest
      by (intros s Hs; apply Hobj; by right).
    case_bool_decide as Hin.
    + apply assoc_elem_of in Hin as [v Hv]. rewrite Hv. csimpl.
      etrans; [by apply IH|]. by rewrite <- app_assoc.
    + destruct (assoc "gen3_discovery" fields) as [v|] eqn:Hv.
      * destruct Hin. apply assoc_elem_of. by eexists.
      * by apply IH.
Qed.

Lemma for_each_discovery_raise (subs : list json) (acc : list json) (e : exn) :
  for_each subs (fun sub blocks =>
    ks ← dict_keys sub;
    if bool_decide ("gen3_discovery" ∈ ks)
    then block ← subscript sub "gen3_discovery"; Ok (blocks ++ [block])
    else Ok blocks) acc = Raise e →
  e = AttributeError.
Proof.
  revert acc. induction subs as [|sub subs IH]; intros acc; csimpl; [done|].
  destruct sub as [| | | | |fields]; csimpl; try (by intros [= <-]).
  case_bool_decide as Hin.
  - apply assoc_elem_of in Hin as [v Hv]. rewrite Hv. csimpl. apply IH.
  - apply IH.
Qed.

(** X12. The selection of the "gen3_discovery" blocks never raises
    [KeyError] or [TypeError]: the lookup is guarded by the membership test,
    and the only exception left is the [AttributeError] of a value that is
    not an object. When the metadata is an object whose records are objects,
    the selection returns the block of every record that has one, once each
    and in the order of the records, and skips the others. *)
Theorem discovery_blocks_guarded (metadata_object : json) :
  (∀ e, discovery_blocks metadata_object = Raise e → e = AttributeError)
  ∧ (∀ records : list (string * json),
       metadata_object = JObj records →
       (∀ sub, sub ∈ records.*2 → ∃ fields, sub = JObj fields) →
       discovery_blocks metadata_object = Ok (omap block_of records.*2)
       ∧ length (omap block_of records.*2) ≤ length records).
Proof.
  split.
  - intros e. unfold discovery_blocks.
    destruct metadata_object as [| | | | |records]; csimpl; try (by intros [= <-]).
    apply for_each_discovery_raise.
  - intros records -> Hobj. split.
    + unfold discovery_blocks. csimpl. by rewrite for_each_discovery_objects.
    + rewrite <- (length_fmap snd records).
      generalize (records.*2). intros l. induction l as [|x l IH]; csimpl; [done|].
      destruct (block_of x); simpl; lia.
Qed.

Lemma discovery_blocks_guarded_witness :
  discovery_blocks
    (JObj [ ("HDP00001", JObj [ ("gen3_discovery", JObj [ ("project_number", JStr "1U24") ]) ]);
            ("HDP00002", JObj [ ("_guid_type", JStr "discovery_metadata") ]) ])
  = Ok [ JObj [ ("project_number", JStr "1U24") ] ].
Proof.
  refine (proj1 (proj2 (discovery_blocks_guarded _) _ eq_refl _)).
  intros sub Hsub.
  apply elem_of_cons in Hsub as [->|Hsub]; [by eexists|].
  apply elem_of_cons in Hsub as [->|Hsub]; [by eexists|].
  by apply elem_of_nil in Hsub.
Defined.

(** ** The clinical-status list *)

Lemma py_str_int_not_nan (n : Z) : py_str (VInt n) ≠ "nan".
Proof.
  unfold py_str. destruct n as [|p|p]; simpl; [done| |].
  - unfold NilZero.string_of_uint. destruct (Pos.to_uint p); simpl; discriminate.
  - unfold NilZero.string_of_uint. destruct (Pos.to_uint p); simpl; discriminate.
Qed.

(** X13. The comprehension that builds the clinical-status list drops the
    missing marker and, with it, a text cell that reads "nan"; it keeps
    every other cell, every integer among them, in the order it had. *)
Theorem clinical_status_list_keeps (statuses : list value) :
  (∀ x, x ∈ clinical_status_list statuses
        ↔ x ∈ statuses ∧ x ≠ VNaN ∧ x ≠ VStr "nan")
  ∧ (∀ n, VInt n ∈ statuses → VInt n ∈ clinical_status_list statuses)
  ∧ clinical_status_list statuses `sublist_of` statuses.
Proof.
  assert (∀ x, py_str x ≠ "nan" ↔ x ≠ VNaN ∧ x ≠ VStr "nan") as Hkeep.
  { intros [n|s|]; simpl.
    - split; [done|]. intros _. apply py_str_int_not_nan.
    - split; [intros Hs; split; [done|congruence] | intros [_ Hs] ->; done].
    - split; [done | by intros [? _]]. }
  split_and!.
  - intros x. unfold clinical_status_list. rewrite list_elem_of_filter, Hkeep. tauto.
  - intros n Hn. unfold clinical_status_list. apply list_elem_of_filter.
    split; [apply py_str_int_not_nan|done].
  - apply sublist_filter.
Qed.

(** ** The query address of the gene-expression notebook *)

Example gdcGetURL_new_ex :
  gdcGetURL_new (λ s, s) "TCGA-CHOL" "Clinical"
  = RValue ("https://api.gdc.cancer.gov/files?filters={" +:+ dq +:+ "op" +:+ dq +:+ ":"
            +:+ dq +:+ "and" +:+ dq +:+ "," +:+ dq +:+ "content" +:+ dq +:+ ":["
            +:+ op_in_field +:+ "cases.project.project_id" +:+ dq +:+ "," +:+ dq
            +:+ "value" +:+ dq +:+ ":[" +:+ dq +:+ "TCGA-CHOL" +:+ dq +:+ "]}},"
            +:+ op_in_field +:+ "files.data_category" +:+ dq +:+ "," +:+ dq
            +:+ "value" +:+ dq +:+ ":" +:+ dq +:+ "Clinical" +:+ dq +:+ "}},"
            +:+ op_in_field +:+ "files.data_type" +:+ dq +:+ "," +:+ dq
            +:+ "value" +:+ dq +:+ ":" +:+ dq +:+ "Clinical Supplement" +:+ dq +:+ "}},"
            +:+ op_in_field +:+ "files.data_format" +:+ dq +:+ "," +:+ dq
            +:+ "value" +:+ dq +:+ ":" +:+ dq +:+ "BCR XML" +:+ dq +:+ "}}]}"
            +:+ "&pretty=true&format=JSON&size=10000&expand=analysis,"
            +:+ "analysis.input_files,associated_entities,cases,cases.diagnoses,"
            +:+ "cases.diagnoses.treatments,cases.demographic,cases.project,"
            +:+ "cases.samples,cases.samples.portions,"
            +:+ "cases.samples.portions.analytes,"
            +:+ "cases.samples.portions.analytes.aliquots,"
            +:+ "cases.samples.portions.slides").
Proof. vm_compute. reflexivity. Qed.

(** X14. [gdcGetURL_new] returns an address for the four data types its
    chain of tests knows ("RNAseq", "miRNAs", "Clinical", "pre-miRNAs") and
    for no other: the chain has no final [else], so with any other data type
    the category was never assigned and the call stops with
    "object 'data.category' not found". *)
Theorem gdcGetURL_new_known_types (URLencode : string → string)
    (project_id data_type : string) :
  ((∃ url, gdcGetURL_new URLencode project_id data_type = RValue url)
   ↔ data_type ∈ ["RNAseq"; "miRNAs"; "Clinical"; "pre-miRNAs"])
  ∧ (data_type ∉ ["RNAseq"; "miRNAs"; "Clinical"; "pre-miRNAs"] →
     gdcGetURL_new URLencode project_id data_type
     = RError (ObjectNotFound "data.category")).
Proof.
  unfold gdcGetURL_new.
  destruct (String.eqb_spec data_type "RNAseq") as [->|H1].
  { split; [split; [intros _; by left | intros _; by eexists] |].
    intros []. by left. }
  destruct (String.eqb_spec data_type "miRNAs") as [->|H2].
  { split; [split; [intros _; right; by left | intros _; by eexists] |].
    intros []. right. by left. }
  destruct (String.eqb_spec data_type "Clinical") as [->|H3].
  { split; [split; [intros _; do 2 right; by left | intros _; by eexists] |].
    intros []. do 2 right. by left. }
  destruct (String.eqb_spec data_type "pre-miRNAs") as [->|H4].
  { split; [split; [intros _; do 3 right; by left | intros _; by eexists] |].
    intros []. do 3 right. by left. }
  assert (data_type ∉ ["RNAseq"; "miRNAs"; "Clinical"; "pre-miRNAs"]) as Hnot.
  { rewrite !not_elem_of_cons. split_and!; [done..|]. apply not_elem_of_nil. }
  split; [|done]. split; [by intros [url ?] | done].
Qed.

Lemma gdcGetURL_new_known_types_witness :
  gdcGetURL_new (λ s, s) "TCGA-CHOL" "rnaseq" = RError (ObjectNotFound "data.category").
Proof.
  apply (proj2 (gdcGetURL_new_known_types (λ s, s) "TCGA-CHOL" "rnaseq")).
  rewrite !not_elem_of_cons. split_and!; [done..|]. apply not_elem_of_nil.
Defined.

(** ** The gene identifiers of the merged counts *)

Section gene_id_facts.
#[local] Arguments String.append !_ _ / : simpl nomatch.

Lemma char_in_dot_cons (c : ascii) (s : string) :
  char_in "." (String c s) = if Ascii.eqb c "." then true else char_in "." s.
Proof. cbn [char_in]. by rewrite (Ascii.eqb_sym "." c). Qed.

Lemma before_dot_spec (s : string) :
  ∃ rest, s = before_dot s +:+ rest
        ∧ (rest = EmptyString ∨ ∃ rest', rest = String "." rest')
        ∧ char_in "." (before_dot s) = false.
Proof.
  induction s as [|c s (rest & Hs & Hrest & Hno)]; cbn [before_dot].
  - exists EmptyString. by split_and!; [|left|].
  - destruct (Ascii.eqb_spec c ".") as [->|Hc].
    + exists (String "." s). split_and!; [done|right; by eexists|done].
    + exists rest. split_and!; [cbn [String.append]; by rewrite <- Hs|done|].
      rewrite char_in_dot_cons. by destruct (Ascii.eqb_spec c ".").
Qed.

Lemma before_dot_no_dot (s : string) :
  char_in "." s = false → before_dot s = s.
Proof.
  induction s as [|c s IH]; [done|].
  rewrite char_in_dot_cons. cbn [before_dot].
  destruct (Ascii.eqb c "."); [done|]. intros Hs. by rewrite IH.
Qed.

End gene_id_facts.

(** X15. The gene id written back by [merge_rna] is the part of the id
    before its first dot: it holds no dot, and the id is that part alone or
    that part followed by a dot and more. An id without a dot is kept as it
    is, cutting twice gives what cutting once gives unless nothing is left,
    and only the empty id has no first piece. *)
Theorem first_piece_before_first_dot (gene_id : string) :
  (first_piece gene_id = None ↔ gene_id = EmptyString)
  ∧ (∀ piece, first_piece gene_id = Some piece →
       char_in "." piece = false
       ∧ (∃ rest, gene_id = piece +:+ rest
                ∧ (rest = EmptyString ∨ ∃ rest', rest = String "." rest'))
       ∧ (piece ≠ EmptyString → first_piece piece = Some piece))
  ∧ (gene_id ≠ EmptyString → char_in "." gene_id = false →
     first_piece gene_id = Some gene_id).
Proof.
  split_and!.
  - by destruct gene_id.
  - intros piece Hpiece.
    assert (piece = before_dot gene_id) as ->
      by (destruct gene_id; cbn [first_piece] in Hpiece; congruence).
    destruct (before_dot_spec gene_id) as (rest & Hs & Hrest & Hno).
    split_and!; [done|by exists rest|].
    intros Hne. destruct (before_dot gene_id) eqn:Hb; [done|].
    unfold first_piece. by rewrite before_dot_no_dot.
  - intros Hne Hno. destruct gene_id; [done|].
    unfold first_piece. by rewrite before_dot_no_dot.
Qed.

Lemma first_piece_before_first_dot_witness :
  first_piece "ENSG00000000003" = Some "ENSG00000000003"
  ∧ char_in "." "ENSG00000000003" = false.
Proof.
  split; [|reflexivity].
  by apply (proj2 (proj2 (first_piece_before_first_dot "ENSG00000000003"))).
Defined.

Example first_piece_ex :
  first_piece "ENSG00000000003.15" = Some "ENSG00000000003"
  ∧ first_piece "ENSG00000002586.20_PAR_Y" = Some "ENSG00000002586"
  ∧ first_piece ".15" = Some EmptyString.
Proof. split_and!; reflexivity. Qed.
